(** * 4-Player Tic-Tac-Toe: the game engine of [App.tsx]

    A shallow embedding of the state, the event handlers, the win scan, the
    view and the fireworks of the React component [App], and of the audio
    context of the sound manager, followed by their properties. *)

From stdpp Require Import base list strings pretty.
From Stdlib Require Import ZArith Lia PrimFloat.

#[local] Set Warnings "-inexact-float".

(** ** Module-level constants *)

Definition FIRST_PLAYER : Z := 1.
Definition SECOND_PLAYER : Z := 2.
Definition THIRD_PLAYER : Z := 3.
Definition FOURTH_PLAYER : Z := 4.
Definition GRID_SIZE : nat := 5.
Definition PLAYGROUND_SIZE : nat := GRID_SIZE * GRID_SIZE.
Definition EMPTY_CELL_VALUE : Z := 9.
Definition DEFAULT_WINNER_TEXT : string := "No one has won yet.".

(** ** JavaScript values met by the engine

    The grid is a dense [number[]] holding integers; reading it outside its
    bounds gives [undefined], and the win scan answers a cell value or
    [null]. *)

Inductive value : Type :=
  | Num (n : Z)
  | Undefined
  | Null.

Global Instance value_eq_dec : EqDecision value.
Proof. solve_decision. Defined.

(** [a === b] *)
Definition strict_eq (a b : value) : bool :=
  match a, b with
  | Num x, Num y => (x =? y)%Z
  | Undefined, Undefined => true
  | Null, Null => true
  | _, _ => false
  end.

(** The test of [if (v)]: [0], [undefined] and [null] are falsy. *)
Definition truthy (v : value) : bool :=
  match v with
  | Num n => negb (n =? 0)%Z
  | Undefined | Null => false
  end.

(** [buttons[i]] for a non-negative integer [i]. *)
Definition read (buttons : list Z) (i : nat) : value :=
  match buttons !! i with
  | Some n => Num n
  | None => Undefined
  end.

(** [buttons[id]] for any integer [id] (the UI passes the position of a
    button): a negative index names no element. *)
Definition read_at (buttons : list Z) (id : Z) : value :=
  if (id <? 0)%Z then Undefined else read buttons (Z.to_nat id).

(** [batch[0]] *)
Definition first_of (batch : list value) : value :=
  match batch with
  | [] => Undefined
  | c :: _ => c
  end.

(** [buttons.slice(i, j)] *)
Definition slice (buttons : list Z) (i j : nat) : list value :=
  Num <$> take (j - i) (drop i buttons).

(** ** Counting loops

    [for (let i = start; i < stop; i += step)]: the values [i] takes in the
    body, in order.  The indices of the scan are never negative, so they are
    natural numbers; [stop] iterations are always enough when [step] is
    positive (see [for_loop_fuel]). *)

Fixpoint for_loop (fuel i stop step : nat) : list nat :=
  match fuel with
  | O => []
  | S fuel' =>
      if bool_decide (i < stop) then i :: for_loop fuel' (i + step) stop step
      else []
  end.

Definition for_indices (start stop step : nat) : list nat :=
  for_loop stop start stop step.

(** A loop body that may [return]: the first truthy answer of [body] over the
    iterations, [None] when the loop runs to its end. *)
Fixpoint first_return (body : nat → value) (iters : list nat) : option value :=
  match iters with
  | [] => None
  | i :: rest =>
      let winnerPlayer := body i in
      if truthy winnerPlayer then Some winnerPlayer
      else first_return body rest
  end.

(** ** The win scan *)

Definition scanColumns (colIndex : nat) (buttons : list Z) : list value :=
  (λ row, read buttons (row * GRID_SIZE + colIndex)) <$> seq 0 GRID_SIZE.

Definition topLeftToBottomRightScan (buttons : list Z) : list value :=
  read buttons <$> for_indices 0 (length buttons) (GRID_SIZE + 1).

(** [buttons.length - 1] is [-1] on an empty array, where the loop does not
    run either way: truncated subtraction gives the same iterations. *)
Definition topRightToBottomLeftScan (buttons : list Z) : list value :=
  read buttons <$> for_indices (GRID_SIZE - 1) (length buttons - 1) (GRID_SIZE - 1).

Definition checkWinnerBatch (batch : list value) : value :=
  let first := first_of batch in
  if negb (strict_eq first (Num EMPTY_CELL_VALUE))
     && forallb (λ cell, strict_eq cell first) batch
  then first
  else Null.

Definition displayWinner (buttons : list Z) : value :=
  match first_return (λ i, checkWinnerBatch (slice buttons i (i + GRID_SIZE)))
          (for_indices 0 (length buttons) GRID_SIZE) with
  | Some winnerPlayer => winnerPlayer
  | None =>
  match first_return (λ i, checkWinnerBatch (scanColumns i buttons))
          (for_indices 0 GRID_SIZE 1) with
  | Some winnerPlayer => winnerPlayer
  | None =>
      let winnerDiag1 := checkWinnerBatch (topLeftToBottomRightScan buttons) in
      if truthy winnerDiag1 then winnerDiag1
      else
        let winnerDiag2 := checkWinnerBatch (topRightToBottomLeftScan buttons) in
        if truthy winnerDiag2 then winnerDiag2
        else Null
  end
  end.

(** ** Component state and side effects

    The three [useState] cells of [App], and the calls the handlers make into
    the sound manager and the fireworks canvas. *)

Record AppState : Type := mkApp {
  turn : Z;
  winner : string;
  allButtons : list Z;
}.

Inductive effect : Type :=
  | PlayClick
  | PlayWin
  | PlayRestart
  | LaunchFireworks.

(** A handler is a computation over the pending state and the trace of the
    effects raised so far. *)
Definition M (A : Type) : Type := AppState * list effect → A * (AppState * list effect).

Global Instance M_ret : MRet M := λ A x w, (x, w).
Global Instance M_bind : MBind M := λ A B f m w, let '(x, w') := m w in f x w'.

(** [setTurn] is only used with an updater function or a constant. *)
Definition setTurn (f : Z → Z) : M unit :=
  λ '(st, tr), (tt, (mkApp (f (turn st)) (winner st) (allButtons st), tr)).
Definition setWinner (text : string) : M unit :=
  λ '(st, tr), (tt, (mkApp (turn st) text (allButtons st), tr)).
Definition setAllButtons (buttons : list Z) : M unit :=
  λ '(st, tr), (tt, (mkApp (turn st) (winner st) buttons, tr)).
Definition emit (e : effect) : M unit :=
  λ '(st, tr), (tt, (st, tr ++ [e])).

(** [Array(PLAYGROUND_SIZE).fill(EMPTY_CELL_VALUE)] *)
Definition fresh_grid : list Z := replicate PLAYGROUND_SIZE EMPTY_CELL_VALUE.

(** The state of the first render: the initial values given to [useState]. *)
Definition initial : AppState :=
  mkApp FIRST_PLAYER DEFAULT_WINNER_TEXT fresh_grid.

(** The text a template literal gives for a value. For a number this is its
    decimal text, which is what JavaScript prints for every integer below
    10^21 in magnitude, hence for every value the component stores; greater
    numbers, printed by JavaScript in exponent form, are outside the model. *)
Definition to_string (v : value) : string :=
  match v with
  | Num n => pretty n
  | Undefined => "undefined"
  | Null => "null"
  end.

Definition getWinnerString (player : value) : string :=
  "Player " +:+ to_string player +:+ " wins!".

(** The updater passed to [setTurn] by [incrementTurn]. *)
Definition nextTurn (prevTurn : Z) : Z :=
  if (prevTurn =? FIRST_PLAYER)%Z then SECOND_PLAYER
  else if (prevTurn =? SECOND_PLAYER)%Z then THIRD_PLAYER
  else if (prevTurn =? THIRD_PLAYER)%Z then FOURTH_PLAYER
  else FIRST_PLAYER.

Definition incrementTurn : M unit := setTurn nextTurn.

(** ** The handlers

    A handler closes over the state values of the render it was created in;
    its setters act on the pending state. *)

Section Handlers.
Variables (turn : Z) (winner : string) (allButtons : list Z).

(** The assignment [newButtons[id] = turn] is reached only when
    [allButtons[id]] was read as [EMPTY_CELL_VALUE], hence with [id] inside
    the array (see [read_at_Num]): it never extends the array, and
    the in-place update of the copy is the list insertion. *)
Definition placeMarker (id : Z) : M unit :=
  if negb (strict_eq (read_at allButtons id) (Num EMPTY_CELL_VALUE))
     || negb (String.eqb winner DEFAULT_WINNER_TEXT)
  then mret tt
  else
    let newButtons := <[Z.to_nat id := turn]> allButtons in
    let winnerPlayer := displayWinner newButtons in
    (if truthy winnerPlayer then
       setWinner (getWinnerString winnerPlayer) ;;
       emit LaunchFireworks ;;
       emit PlayWin
     else
       emit PlayClick) ;;
    setAllButtons newButtons ;;
    incrementTurn.

Definition restartGame : M unit :=
  setAllButtons fresh_grid ;;
  setWinner DEFAULT_WINNER_TEXT ;;
  setTurn (λ _, FIRST_PLAYER) ;;
  emit PlayRestart.
End Handlers.

(** ** Running the component

    The commands the UI can issue; each runs to completion on the state it was
    rendered with and yields the next state and the effects it raised. *)

Inductive command : Type :=
  | Click (id : Z)
  | Restart.

Definition exec (m : M unit) (st : AppState) : AppState * list effect :=
  snd (m (st, [])).

Definition handle (c : command) (st : AppState) : AppState * list effect :=
  match c with
  | Click id => exec (placeMarker (turn st) (winner st) (allButtons st) id) st
  | Restart => exec restartGame st
  end.

Definition step (c : command) (st : AppState) : AppState := fst (handle c st).

(** A sequence of commands, each handled on the state the previous one left;
    the effects accumulate in order. *)
Fixpoint run (cs : list command) (st : AppState) : AppState * list effect :=
  match cs with
  | [] => (st, [])
  | c :: rest =>
      let '(st1, tr1) := handle c st in
      let '(st2, tr2) := run rest st1 in
      (st2, tr1 ++ tr2)
  end.

(** ** Vocabulary of the properties *)

(** A player identifier. *)
Definition is_player (p : Z) : Prop := (1 ≤ p ≤ 4)%Z.

(** A cell holds the empty sentinel or a player identifier. *)
Definition cell_ok (c : Z) : Prop := c = EMPTY_CELL_VALUE ∨ is_player c.

(** A well-formed grid: [PLAYGROUND_SIZE] cells, each empty or a player. *)
Definition well_formed (buttons : list Z) : Prop :=
  length buttons = PLAYGROUND_SIZE ∧ Forall cell_ok buttons.

(** The state invariant of the component. *)
Definition state_ok (st : AppState) : Prop :=
  well_formed (allButtons st) ∧ is_player (turn st).

(** The game is still open: no winner text has been set. *)
Definition in_progress (st : AppState) : Prop := winner st = DEFAULT_WINNER_TEXT.

(** The guard of [placeMarker] lets the call through. *)
Definition accepted (st : AppState) (id : Z) : Prop :=
  read_at (allButtons st) id = Num EMPTY_CELL_VALUE ∧ in_progress st.

Global Instance accepted_dec (st : AppState) (id : Z) : Decision (accepted st id).
Proof. unfold accepted, in_progress. apply _. Defined.

(** The grid [placeMarker] builds when it lets the call through. *)
Definition placed (st : AppState) (id : Z) : list Z :=
  <[Z.to_nat id := turn st]> (allButtons st).

(** Every call of a sequence of placements is let through by the guard. *)
Fixpoint all_accepted (ids : list Z) (st : AppState) : Prop :=
  match ids with
  | [] => True
  | id :: rest => accepted st id ∧ all_accepted rest (step (Click id) st)
  end.

(** The cell at [id] exists and holds something other than the sentinel. *)
Definition occupied (st : AppState) (id : Z) : Prop :=
  ∃ p, read_at (allButtons st) id = Num p ∧ p ≠ EMPTY_CELL_VALUE.

(** The first truthy value of a list, if any. *)
Fixpoint first_truthy (ws : list value) : option value :=
  match ws with
  | [] => None
  | w :: rest => if truthy w then Some w else first_truthy rest
  end.

(** The batches [displayWinner] hands to [checkWinnerBatch], in the order in
    which it does so. *)
Definition lines_examined (buttons : list Z) : list (list value) :=
  ((λ i, slice buttons i (i + GRID_SIZE)) <$> for_indices 0 (length buttons) GRID_SIZE)
  ++ ((λ i, scanColumns i buttons) <$> for_indices 0 GRID_SIZE 1)
  ++ [topLeftToBottomRightScan buttons; topRightToBottomLeftScan buttons].

(** *** The lines as the specification describes them

    Index [i] lies in row [i div N] and column [i mod N]; the main diagonal is
    [0, N+1, 2(N+1), …] and the anti-diagonal [N-1, 2N-2, 3N-3, …], each of
    [N] cells.  The scan order is rows ascending, columns ascending, main
    diagonal, anti-diagonal. *)

Definition spec_row (r : nat) : list nat := (λ c, r * GRID_SIZE + c) <$> seq 0 GRID_SIZE.
Definition spec_col (c : nat) : list nat := (λ r, r * GRID_SIZE + c) <$> seq 0 GRID_SIZE.
Definition spec_main_diag : list nat := (λ k, k * (GRID_SIZE + 1)) <$> seq 0 GRID_SIZE.
Definition spec_anti_diag : list nat := (λ k, (k + 1) * (GRID_SIZE - 1)) <$> seq 0 GRID_SIZE.

Definition spec_lines : list (list nat) :=
  (spec_row <$> seq 0 GRID_SIZE) ++ (spec_col <$> seq 0 GRID_SIZE)
  ++ [spec_main_diag; spec_anti_diag].

(** A line is won by [p]: every cell of it holds [p], and [p] is not the
    empty sentinel. *)
Definition line_won (buttons : list Z) (line : list nat) (p : Z) : Prop :=
  p ≠ EMPTY_CELL_VALUE ∧ ∀ i, i ∈ line → buttons !! i = Some p.

(** A batch of [GRID_SIZE] equal cells. *)
Definition uniform (p : Z) : list value := replicate GRID_SIZE (Num p).

(** *** Sample positions *)

Definition main_diag_1 : list Z :=
  [1;9;9;9;9; 9;1;9;9;9; 9;9;1;9;9; 9;9;9;1;9; 9;9;9;9;1]%Z.

Definition anti_diag_4 : list Z :=
  [9;9;9;9;4; 9;9;9;4;9; 9;9;4;9;9; 9;4;9;9;9; 4;9;9;9;9]%Z.

(** Sixteen legal moves from the start: player 1 holds cells 0 to 3 and is
    to move. *)
Definition opening : list command :=
  Click <$> [0; 5; 10; 15; 1; 6; 11; 16; 2; 7; 12; 17; 3; 8; 13; 18]%Z.

Definition before_win : AppState := fst (run opening initial).

Definition two_rows : list Z :=
  [9;9;9;9;9; 3;3;3;3;3; 2;2;2;2;2; 9;9;9;9;9; 9;9;9;9;9]%Z.

(** ** The view

    What [App] renders from its state: the title, the restart button and one
    button per cell. Only the parts that carry state are kept: the handler a
    button calls and the marker it shows. *)

(** The [div] returned by [getButtonImage], with its class. *)
Inductive element : Type :=
  | Div (className : string).

Section View.
Variable allButtons : list Z.

(** [null] is [None]. *)
Definition getButtonImage (id : Z) : option element :=
  let button := read_at allButtons id in
  if strict_eq button (Num EMPTY_CELL_VALUE) then None
  else
    let className := "marker" in
    Some (Div (
      if strict_eq button (Num FIRST_PLAYER) then className +:+ " circle"
      else if strict_eq button (Num SECOND_PLAYER) then className +:+ " cross"
      else if strict_eq button (Num THIRD_PLAYER) then className +:+ " square"
      else if strict_eq button (Num FOURTH_PLAYER) then className +:+ " triangle"
      else className)).
End View.




(** ** Counting cells *)

(** The number of cells holding [p]. *)
Definition count_cells (p : Z) (buttons : list Z) : nat :=
  length (filter (λ c, c = p) buttons).

(** The number of markers on the grid. *)
Definition markers (buttons : list Z) : nat :=
  length (filter (λ c, c ≠ EMPTY_CELL_VALUE) buttons).

(** The bookkeeping that ties Turn to the markers on the grid. *)
Definition tally_ok (st : AppState) : Prop :=
  turn st = (Z.of_nat (markers (allButtons st)) mod 4 + 1)%Z
  ∧ ∀ p, is_player p →
      Z.of_nat (count_cells p (allButtons st))
      = ((Z.of_nat (markers (allButtons st)) + 4 - p) / 4)%Z.

(** The winner text agrees with the grid: either the game is open and the
    scan finds nothing, or the text names the player the scan finds, who made
    the last move. *)
Definition status_ok (st : AppState) : Prop :=
  (in_progress st ∧ displayWinner (allButtons st) = Null)
  ∨ ∃ p, is_player p
         ∧ winner st = getWinnerString (Num p)
         ∧ displayWinner (allButtons st) = Num p
         ∧ turn st = nextTurn p.

(** A drawn game: twenty-five legal moves that fill the grid. *)
Definition draw_game : list command :=
  Click <$> [0; 1; 2; 3; 5; 4; 6; 7; 8; 9; 10; 11; 12; 13; 14; 15; 16; 17; 18; 19;
             20; 21; 22; 23; 24]%Z.

Definition drawn : AppState := fst (run draw_game initial).

(** ** The sound manager's audio context ([SoundManager.ts])

    The manager holds [null] or the one audio context; a context is named by
    a number. Whether [new AudioContext()] succeeds is the browser's affair:
    each call is given the outcome the constructor would have, the new
    context or an exception ([None]). *)

Record SoundManager : Type := mkSoundManager {
  audioContext : option nat;
}.

Inductive audio_event : Type :=
  | NewAudioContext (ctx : nat)
  | ConsoleError (message : string).

(** The result, the manager afterwards, and what the call did. *)
Definition getContext (construct : option nat) (this : SoundManager)
    : option nat * SoundManager * list audio_event :=
  let '(this', log) :=
    match audioContext this with
    | None =>
        match construct with
        | Some ctx => (mkSoundManager (Some ctx), [NewAudioContext ctx])
        | None =>
            (this, [ConsoleError "Web Audio API is not supported in this browser"])
        end
    | Some _ => (this, [])
    end in
  (audioContext this', this', log).

(** The exported instance. *)
Definition soundManager : SoundManager := mkSoundManager None.

(** Successive calls of [getContext], one constructor outcome each: the
    values returned, the manager at the end and the log. *)
Fixpoint getContext_calls (constructs : list (option nat)) (this : SoundManager)
    : list (option nat) * SoundManager * list audio_event :=
  match constructs with
  | [] => ([], this, [])
  | construct :: rest =>
      let '(result, this1, log1) := getContext construct this in
      let '(results, this2, log2) := getContext_calls rest this1 in
      (result :: results, this2, log1 ++ log2)
  end.

(** ** The fireworks ([launchFireworks])

    Numbers are binary64 floats, as in JavaScript. The canvas is given by its
    size and by whether it has a 2d context; [Math.random] by the results of
    its successive calls. The calls made on the 2d context and to
    [requestAnimationFrame] are recorded in order; each frame that the browser
    runs continues the record. *)

Record canvas : Type := mkCanvas {
  width : float;
  height : float;
  context2d : bool;
}.

(** A particle; [color] is [hsl(hue, 100%, 60%)], kept as its hue. *)
Record particle : Type := mkParticle {
  x : float;
  y : float;
  vx : float;
  vy : float;
  alpha : float;
  hue : float;
}.

Inductive canvas_call : Type :=
  | ClearRect (x y w h : float)
  | FillStyle (hue : float)
  | GlobalAlpha (a : float)
  | BeginPath
  | Arc (x y radius startAngle endAngle : float)
  | Fill
  | RequestAnimationFrame.

(** [Math.PI] *)
Definition Math_PI : float := 3.141592653589793%float.

(** [Math.max(a, b)]: [NaN] if either is, and [+0] above [-0]. *)
Definition Math_max (a b : float) : float :=
  if is_nan a || is_nan b then nan
  else if (a <? b)%float then b
  else if (b <? a)%float then a
  else match classify a with
       | FloatClass.NZero => b
       | _ => a
       end.

Section Fireworks.
Variable cv : canvas.
Variable random : nat → float.

(** The object pushed by iteration [i]; the three calls of [Math.random] are
    made in the order of the fields. *)
Definition new_particle (i : nat) : particle :=
  mkParticle (width cv / 2)%float (height cv / 2)%float
    ((random (3 * i) - 0.5) * 6)%float
    ((random (3 * i + 1) - 0.5) * 6)%float
    1%float
    (random (3 * i + 2) * 360)%float.

Definition particles : list particle := new_particle <$> for_indices 0 100 1.

(** The three updates of a particle in the body of [forEach]. *)
Definition move (p : particle) : particle :=
  mkParticle (x p + vx p)%float (y p + vy p)%float (vx p) (vy p)
    (alpha p - 0.02)%float (hue p).

(** The drawing calls that follow, on the updated particle. *)
Definition draw (p : particle) : list canvas_call :=
  [FillStyle (hue p); GlobalAlpha (Math_max (alpha p) 0%float); BeginPath;
   Arc (x p) (y p) 3%float 0%float (2 * Math_PI)%float; Fill].

(** [animate], with the frames that [requestAnimationFrame] brings after it;
    [fuel] bounds the number of frames followed. *)
Fixpoint animate (fuel : nat) (ps : list particle) : list canvas_call :=
  match fuel with
  | O => []
  | S fuel' =>
      let ps' := move <$> ps in
      ClearRect 0%float 0%float (width cv) (height cv)
      :: concat (draw <$> ps')
      ++ (if existsb (λ p, (0 <? alpha p)%float) ps'
          then RequestAnimationFrame :: animate fuel' ps'
          else [ClearRect 0%float 0%float (width cv) (height cv)])
  end.
End Fireworks.

(** [fireworksRef.current] is [null] ([None]) until the canvas is mounted. *)
Definition launchFireworks (current : option canvas) (random : nat → float)
    (fuel : nat) : list canvas_call :=
  match current with
  | None => []
  | Some cv =>
      if negb (context2d cv) then []
      else animate cv fuel (particles cv random)
  end.

(** What a record of calls contains. *)
Definition is_frame_request (c : canvas_call) : bool :=
  match c with RequestAnimationFrame => true | _ => false end.
Definition is_clear (c : canvas_call) : bool :=
  match c with ClearRect _ _ _ _ => true | _ => false end.
Definition is_fill (c : canvas_call) : bool :=
  match c with Fill => true | _ => false end.
Definition count_calls (P : canvas_call → bool) (calls : list canvas_call) : nat :=
  length (filter (λ c, P c = true) calls).
Definition alphas_set (calls : list canvas_call) : list float :=
  omap (λ c, match c with GlobalAlpha a => Some a | _ => None end) calls.

(** The alpha of the particles in the successive frames of an animation
    whose particles all start at [a], up to the frame that ends it. *)
Fixpoint alpha_frames (fuel : nat) (a : float) : list float :=
  match fuel with
  | O => []
  | S fuel' =>
      let a' := (a - 0.02)%float in
      a' :: (if (0 <? a')%float then alpha_frames fuel' a' else [])
  end.

(** Within [fuel] frames the alpha has stopped being positive. *)
Fixpoint fades_within (fuel : nat) (a : float) : bool :=
  match fuel with
  | O => false
  | S fuel' =>
      let a' := (a - 0.02)%float in
      if (0 <? a')%float then fades_within fuel' a' else true
  end.

(** ** Proof tools *)

(** Names the cells of a grid whose length is known. *)
Ltac grid_cells buttons Hlen :=
  unfold PLAYGROUND_SIZE, GRID_SIZE in Hlen; simpl in Hlen;
  repeat (destruct buttons as [|? buttons]; [discriminate Hlen|]);
  destruct buttons; [clear Hlen | discriminate Hlen].

(** Membership in a list that is written out. *)
Ltac in_list :=
  vm_compute;
  solve [repeat first [apply list_elem_of_here | apply list_elem_of_further]].

(** ** Values and array reads *)

Lemma strict_eq_true (a b : value) : strict_eq a b = true ↔ a = b.
Proof.
  destruct a, b; simpl; split; intros H; try done.
  - apply Z.eqb_eq in H. by subst.
  - inversion H; subst. apply Z.eqb_refl.
Qed.

Lemma strict_eq_false (a b : value) : strict_eq a b = false ↔ a ≠ b.
Proof.
  rewrite <- strict_eq_true. destruct (strict_eq a b); split; congruence.
Qed.

Lemma truthy_Num (p : Z) : truthy (Num p) = true ↔ p ≠ 0%Z.
Proof.
  simpl. rewrite negb_true_iff. apply Z.eqb_neq.
Qed.

Lemma truthy_is_Num (w : value) :
  truthy w = true → ∃ p, w = Num p ∧ p ≠ 0%Z.
Proof.
  destruct w as [p| |]; simpl; intros H; try discriminate.
  exists p. split; [done|]. by apply truthy_Num.
Qed.

Lemma is_player_truthy (p : Z) : is_player p → truthy (Num p) = true.
Proof. intros Hp. apply truthy_Num. unfold is_player in Hp. lia. Qed.

Lemma read_lookup (buttons : list Z) (i : nat) (p : Z) :
  read buttons i = Num p ↔ buttons !! i = Some p.
Proof.
  unfold read. destruct (buttons !! i); split; congruence.
Qed.

Lemma read_Undefined (buttons : list Z) (i : nat) :
  read buttons i = Undefined ↔ length buttons ≤ i.
Proof.
  unfold read. destruct (buttons !! i) as [n|] eqn:E.
  - apply lookup_lt_Some in E. split; [done | lia].
  - apply lookup_ge_None in E. done.
Qed.

(** A read that gives a number was made inside the array. *)
Lemma read_at_Num (buttons : list Z) (id : Z) (p : Z) :
  read_at buttons id = Num p ↔
  (0 ≤ id)%Z ∧ Z.to_nat id < length buttons ∧ buttons !! Z.to_nat id = Some p.
Proof.
  unfold read_at. destruct (Z.ltb_spec id 0).
  - split; [done | lia].
  - rewrite read_lookup. split.
    + intros E. split; [done|]. split; [|done]. by apply lookup_lt_Some in E.
    + tauto.
Qed.

Lemma read_at_outside (buttons : list Z) (id : Z) :
  (id < 0 ∨ Z.of_nat (length buttons) ≤ id)%Z → read_at buttons id = Undefined.
Proof.
  intros H. unfold read_at. destruct (Z.ltb_spec id 0); [done|].
  apply read_Undefined. lia.
Qed.

(** ** Counting loops run to their end *)

Lemma for_loop_fuel (step stop : nat) :
  0 < step →
  ∀ fuel fuel' i, stop - i ≤ fuel → stop - i ≤ fuel' →
    for_loop fuel i stop step = for_loop fuel' i stop step.
Proof.
  intros Hstep. induction fuel as [|fuel IH]; intros fuel' i Hf Hf'.
  - destruct fuel' as [|fuel']; [done|]. simpl.
    rewrite bool_decide_eq_false_2; [done | lia].
  - destruct fuel' as [|fuel']; simpl.
    + rewrite bool_decide_eq_false_2; [done | lia].
    + case_bool_decide; [|done]. f_equal. apply IH; lia.
Qed.

Lemma for_indices_unfold (start stop step : nat) :
  0 < step →
  for_indices start stop step =
  if bool_decide (start < stop) then start :: for_indices (start + step) stop step
  else [].
Proof.
  intros Hstep. unfold for_indices.
  by rewrite (for_loop_fuel step stop Hstep stop (S stop) start) by lia.
Qed.

(** The loop visits exactly [start], [start + step], … below [stop]. *)
Lemma for_loop_elem (step stop : nat) :
  0 < step →
  ∀ fuel i j, stop - i ≤ fuel →
    j ∈ for_loop fuel i stop step ↔ j < stop ∧ ∃ k, j = i + k * step.
Proof.
  intros Hstep. induction fuel as [|fuel IH]; intros i j Hf; simpl.
  - split; [by intros ?%elem_of_nil | intros [? [k ->]]; lia].
  - case_bool_decide as Hi.
    + rewrite elem_of_cons, IH by lia. split.
      * intros [-> | [Hj [k ->]]].
        -- split; [done|]. exists 0. lia.
        -- split; [done|]. exists (S k). lia.
      * intros [Hj [k ->]]. destruct k as [|k]; [left; lia|].
        right. split; [done|]. exists k. lia.
    + split; [by intros ?%elem_of_nil | intros [? [k ->]]; lia].
Qed.

Lemma for_indices_elem (start stop step j : nat) :
  0 < step →
  j ∈ for_indices start stop step ↔ j < stop ∧ ∃ k, j = start + k * step.
Proof.
  intros Hstep. unfold for_indices. apply for_loop_elem; [done | lia].
Qed.

(** ** One batch *)

Lemma forallb_strict_eq (batch : list value) (v : value) :
  forallb (λ cell, strict_eq cell v) batch = true ↔ Forall (λ cell, cell = v) batch.
Proof.
  induction batch as [|c batch IH]; simpl.
  - split; [constructor | done].
  - rewrite andb_true_iff, IH, strict_eq_true, Forall_cons. done.
Qed.

(** Either the batch is rejected with [null], or its first cell is answered,
    every cell equals it and it is not the sentinel. *)
Lemma checkWinnerBatch_cases (batch : list value) :
  checkWinnerBatch batch = Null ∨
  (checkWinnerBatch batch = first_of batch
   ∧ first_of batch ≠ Num EMPTY_CELL_VALUE
   ∧ Forall (λ cell, cell = first_of batch) batch).
Proof.
  unfold checkWinnerBatch.
  destruct (strict_eq (first_of batch) (Num EMPTY_CELL_VALUE)) eqn:E1; simpl;
    [by left|].
  destruct (forallb _ batch) eqn:E2; [|by left].
  right. split; [done|]. split.
  - by apply strict_eq_false.
  - by apply forallb_strict_eq.
Qed.

Lemma checkWinnerBatch_Num (batch : list value) (p : Z) :
  checkWinnerBatch batch = Num p ↔
  batch ≠ [] ∧ p ≠ EMPTY_CELL_VALUE ∧ Forall (λ cell, cell = Num p) batch.
Proof.
  split.
  - intros E. destruct (checkWinnerBatch_cases batch) as [N | (F & NE & A)];
      [congruence|].
    rewrite F in E. rewrite E in NE, A. split; [|split].
    + intros ->. discriminate.
    + congruence.
    + done.
  - intros (NE & Hp & A). unfold checkWinnerBatch.
    destruct batch as [|c batch]; [done|].
    pose proof (Forall_inv A) as Hc. simpl in Hc. subst c. simpl first_of.
    assert (strict_eq (Num p) (Num EMPTY_CELL_VALUE) = false) as ->.
    { apply strict_eq_false. congruence. }
    apply forallb_strict_eq in A. by rewrite A.
Qed.

(** A truthy answer is a non-zero number shared by the whole batch. *)
Lemma checkWinnerBatch_truthy (batch : list value) :
  truthy (checkWinnerBatch batch) = true →
  ∃ p, checkWinnerBatch batch = Num p ∧ p ≠ 0%Z ∧ p ≠ EMPTY_CELL_VALUE
       ∧ Forall (λ cell, cell = Num p) batch.
Proof.
  intros T. apply truthy_is_Num in T as (p & E & Hp).
  exists p. apply checkWinnerBatch_Num in E as E'. tauto.
Qed.

(** On the cells of a line that lies inside the grid, the batch check answers
    [p] exactly when the line is won by [p]. *)
Lemma checkWinnerBatch_line (buttons : list Z) (line : list nat) (p : Z) :
  line ≠ [] →
  checkWinnerBatch (read buttons <$> line) = Num p ↔ line_won buttons line p.
Proof.
  intros NE. rewrite checkWinnerBatch_Num. unfold line_won.
  rewrite Forall_fmap, Forall_forall. split.
  - intros (_ & Hp & A). split; [done|]. intros i Hi.
    apply read_lookup. by apply A.
  - intros (Hp & A). split; [|split; [done|]].
    + destruct line; [done | discriminate].
    + intros i Hi. simpl. apply read_lookup. by apply A.
Qed.

(** ** The scan as a search through the examined batches *)

Lemma first_return_fmap (body : nat → value) (iters : list nat) :
  first_return body iters = first_truthy (body <$> iters).
Proof.
  induction iters as [|i iters IH]; simpl; [done|]. by rewrite IH.
Qed.

Lemma first_truthy_app (ws ws' : list value) :
  first_truthy (ws ++ ws') =
  match first_truthy ws with
  | Some w => Some w
  | None => first_truthy ws'
  end.
Proof.
  induction ws as [|w ws IH]; simpl; [done|]. by destruct (truthy w).
Qed.

Lemma displayWinner_scan (buttons : list Z) :
  displayWinner buttons =
  default Null (first_truthy (checkWinnerBatch <$> lines_examined buttons)).
Proof.
  unfold displayWinner, lines_examined.
  rewrite !fmap_app, !first_truthy_app, !first_return_fmap, <- !list_fmap_compose.
  unfold compose.
  destruct (first_truthy _) as [w|]; [done|].
  destruct (first_truthy _) as [w|]; [done|].
  simpl. destruct (truthy _); [done|]. by destruct (truthy _).
Qed.

Lemma first_truthy_None (ws : list value) :
  first_truthy ws = None ↔ ∀ w, w ∈ ws → truthy w = false.
Proof.
  induction ws as [|w ws IH]; simpl.
  - split; [by intros _ w ?%elem_of_nil | done].
  - destruct (truthy w) eqn:T.
    + split; [done|]. intros H. specialize (H w (list_elem_of_here _ _)). congruence.
    + rewrite IH. split.
      * intros H w' [-> | Hin]%elem_of_cons; [done | by apply H].
      * intros H w' Hin. apply H. by right.
Qed.

(** The answer is the first truthy entry: the one at position [k] when no
    entry before it is truthy. *)
Lemma first_truthy_at (ws : list value) (k : nat) (w : value) :
  ws !! k = Some w → truthy w = true →
  (∀ j w', j < k → ws !! j = Some w' → truthy w' = false) →
  first_truthy ws = Some w.
Proof.
  revert k. induction ws as [|w0 ws IH]; intros k Hk T Before; [done|].
  destruct k as [|k]; simpl in *.
  - inversion Hk; subst. by rewrite T.
  - rewrite (Before 0 w0) by (done || lia).
    apply (IH k); [done..|]. intros j w' Hj Hw'. apply (Before (S j)); [lia | done].
Qed.

(** Conversely the answer sits at some position with nothing truthy before. *)
Lemma first_truthy_Some (ws : list value) (w : value) :
  first_truthy ws = Some w →
  ∃ k, ws !! k = Some w ∧ truthy w = true
       ∧ ∀ j w', j < k → ws !! j = Some w' → truthy w' = false.
Proof.
  induction ws as [|w0 ws IH]; simpl; [done|].
  destruct (truthy w0) eqn:T.
  - intros [= <-]. exists 0. split; [done|]. split; [done|]. intros; lia.
  - intros (k & Hk & Tw & Before)%IH. exists (S k). split; [done|]. split; [done|].
    intros [|j] w' Hj Hw'; simpl in Hw'.
    + by inversion Hw'; subst.
    + apply (Before j); [lia | done].
Qed.

(** ** Geometry of the reference grid *)

Lemma lines_examined_spec (buttons : list Z) :
  length buttons = PLAYGROUND_SIZE →
  lines_examined buttons = (λ line : list nat, read buttons <$> line) <$> spec_lines.
Proof.
  intros Hlen. grid_cells buttons Hlen. reflexivity.
Qed.

Lemma spec_lines_explicit :
  spec_lines =
  [ [0; 1; 2; 3; 4]; [5; 6; 7; 8; 9]; [10; 11; 12; 13; 14];
    [15; 16; 17; 18; 19]; [20; 21; 22; 23; 24];
    [0; 5; 10; 15; 20]; [1; 6; 11; 16; 21]; [2; 7; 12; 17; 22];
    [3; 8; 13; 18; 23]; [4; 9; 14; 19; 24];
    [0; 6; 12; 18; 24]; [4; 8; 12; 16; 20] ].
Proof. reflexivity. Qed.

Lemma spec_lines_inside (line : list nat) :
  line ∈ spec_lines → length line = GRID_SIZE ∧ ∀ i, i ∈ line → i < PLAYGROUND_SIZE.
Proof.
  rewrite spec_lines_explicit. intros H.
  repeat (apply elem_of_cons in H as [-> | H];
    [split; [reflexivity|]; intros i Hi;
     repeat (apply elem_of_cons in Hi as [-> | Hi]; [vm_compute; lia|]);
     by apply elem_of_nil in Hi|]).
  by apply elem_of_nil in H.
Qed.

(** ** The handlers, one case at a time *)

Lemma getWinnerString_not_default (player : value) :
  getWinnerString player ≠ DEFAULT_WINNER_TEXT.
Proof. unfold getWinnerString, DEFAULT_WINNER_TEXT. simpl. discriminate. Qed.

Lemma string_length_app (s t : string) :
  String.length (s +:+ t) = String.length s + String.length t.
Proof.
  induction s as [|a s IH]; [done|].
  change (String a s +:+ t) with (String a (s +:+ t)). simpl. by rewrite IH.
Qed.

Lemma append_inj_r (t s1 s2 : string) : s1 +:+ t = s2 +:+ t → s1 = s2.
Proof.
  revert s2. induction s1 as [|a s1 IH]; intros [|b s2] H.
  - done.
  - apply (f_equal String.length) in H.
    rewrite !string_length_app in H. simpl in H. lia.
  - apply (f_equal String.length) in H.
    rewrite !string_length_app in H. simpl in H. lia.
  - change (String a (s1 +:+ t) = String b (s2 +:+ t)) in H.
    injection H as -> H. f_equal. by apply IH.
Qed.

(** The winner text names its player: distinct players give distinct texts. *)
Lemma getWinnerString_inj (p q : Z) :
  getWinnerString (Num p) = getWinnerString (Num q) → p = q.
Proof.
  unfold getWinnerString. intros H.
  apply (inj (String.append "Player ")) in H.
  apply append_inj_r in H. simpl in H. by apply (inj (pretty : Z → string)) in H.
Qed.

Lemma guard_false_iff (st : AppState) (id : Z) :
  negb (strict_eq (read_at (allButtons st) id) (Num EMPTY_CELL_VALUE))
  || negb (String.eqb (winner st) DEFAULT_WINNER_TEXT) = false
  ↔ accepted st id.
Proof.
  unfold accepted, in_progress.
  rewrite orb_false_iff, !negb_false_iff, strict_eq_true, String.eqb_eq. done.
Qed.

Lemma handle_Click_rejected (st : AppState) (id : Z) :
  ¬ accepted st id → handle (Click id) st = (st, []).
Proof.
  intros NA. unfold handle, placeMarker.
  destruct (_ || _) eqn:G.
  - by destruct st.
  - by apply guard_false_iff in G.
Qed.

Lemma handle_Click_accepted (st : AppState) (id : Z) :
  accepted st id →
  handle (Click id) st =
  let winnerPlayer := displayWinner (placed st id) in
  if truthy winnerPlayer then
    (mkApp (nextTurn (turn st)) (getWinnerString winnerPlayer) (placed st id),
     [LaunchFireworks; PlayWin])
  else
    (mkApp (nextTurn (turn st)) (winner st) (placed st id), [PlayClick]).
Proof.
  intros A. apply guard_false_iff in A. unfold handle, placeMarker. rewrite A.
  fold (placed st id). simpl. by destruct (truthy _).
Qed.

Lemma handle_Restart (st : AppState) :
  handle Restart st = (initial, [PlayRestart]).
Proof. reflexivity. Qed.

Lemma occupied_not_accepted (st : AppState) (id : Z) :
  occupied st id → ¬ accepted st id.
Proof. intros (p & R & Hp) [R' _]. congruence. Qed.

Lemma won_not_accepted (st : AppState) (id : Z) :
  ¬ in_progress st → ¬ accepted st id.
Proof. intros W [_ P]. done. Qed.

(** ** Turn rotation *)

Lemma nextTurn_player (t : Z) : is_player (nextTurn t).
Proof.
  unfold nextTurn, is_player, FIRST_PLAYER, SECOND_PLAYER, THIRD_PLAYER, FOURTH_PLAYER.
  repeat case_match; lia.
Qed.

Lemma nextTurn_round_robin (t : Z) :
  is_player t → nextTurn t = (t mod 4 + 1)%Z.
Proof.
  unfold is_player. intros Ht.
  assert (t = 1 ∨ t = 2 ∨ t = 3 ∨ t = 4)%Z as [-> | [-> | [-> | ->]]] by lia;
    reflexivity.
Qed.

Lemma nextTurn_cycle (t : Z) : is_player t → Nat.iter 4 nextTurn t = t.
Proof.
  unfold is_player. intros Ht.
  assert (t = 1 ∨ t = 2 ∨ t = 3 ∨ t = 4)%Z as [-> | [-> | [-> | ->]]] by lia;
    reflexivity.
Qed.

(** ** The state invariant *)

Lemma fresh_grid_well_formed : well_formed fresh_grid.
Proof.
  split; [apply length_replicate|].
  apply Forall_replicate. by left.
Qed.

Lemma initial_ok : state_ok initial.
Proof.
  split; [apply fresh_grid_well_formed|].
  unfold is_player, initial, FIRST_PLAYER. simpl. lia.
Qed.

Lemma placed_well_formed (st : AppState) (id : Z) :
  state_ok st → well_formed (placed st id).
Proof.
  intros [[L C] T]. unfold placed. split.
  - by rewrite length_insert.
  - apply Forall_insert; [done | by right].
Qed.

Lemma step_ok (c : command) (st : AppState) : state_ok st → state_ok (step c st).
Proof.
  intros Ok. unfold step. destruct c as [id|].
  - destruct (decide (accepted st id)) as [A | NA].
    + rewrite handle_Click_accepted by done. simpl.
      destruct (truthy _); simpl; (split; [by apply placed_well_formed | apply nextTurn_player]).
    + by rewrite handle_Click_rejected.
  - rewrite handle_Restart. apply initial_ok.
Qed.

Lemma run_ok (cs : list command) (st : AppState) :
  state_ok st → state_ok (fst (run cs st)).
Proof.
  revert st. induction cs as [|c cs IH]; intros st Ok; simpl; [done|].
  pose proof (step_ok c st Ok) as Ok1. unfold step in Ok1.
  destruct (handle c st) as [st1 tr1]. specialize (IH st1 Ok1).
  by destruct (run cs st1) as [st2 tr2].
Qed.

(** ** Sequences of commands *)

Lemma run_cons (c : command) (cs : list command) (st : AppState) :
  run (c :: cs) st =
  (fst (run cs (step c st)), snd (handle c st) ++ snd (run cs (step c st))).
Proof.
  simpl. unfold step. destruct (handle c st) as [st1 tr1]. simpl.
  by destruct (run cs st1).
Qed.

Lemma run_rejected (st : AppState) (ids : list Z) :
  (∀ id, id ∈ ids → ¬ accepted st id) → run (Click <$> ids) st = (st, []).
Proof.
  induction ids as [|id ids IH]; intros H; [done|].
  rewrite fmap_cons, run_cons. unfold step.
  rewrite handle_Click_rejected by (apply H; left). simpl.
  rewrite IH; [done|]. intros id' Hin. apply H. by right.
Qed.

Lemma run_accepted_turn (ids : list Z) (st : AppState) :
  all_accepted ids st →
  turn (fst (run (Click <$> ids) st)) = Nat.iter (length ids) nextTurn (turn st).
Proof.
  revert st. induction ids as [|id ids IH]; intros st H; [done|].
  destruct H as [A H]. rewrite fmap_cons, run_cons. simpl fst.
  rewrite IH by done. simpl length. rewrite Nat.iter_succ_r. f_equal.
  unfold step. rewrite handle_Click_accepted by done. simpl.
  by destruct (truthy _).
Qed.

(** * Properties of the engine *)

(** ** Placement *)

(** C1 (as amended). When [placeMarker] lets a call through and the win scan
    finds a winner on the new grid, the winner text is set to that player's
    and the game is no longer in progress; when it finds none, the game stays
    in progress. In both cases Turn moves on to the next player of the
    round-robin order, and a call the guard turns away leaves Turn and the
    winner text as they were. *)
Theorem placeMarker_outcome (st : AppState) (id : Z) :
  let st' := step (Click id) st in
  let winnerPlayer := displayWinner (placed st id) in
  (accepted st id →
     turn st' = nextTurn (turn st)
     ∧ (is_player (turn st) → turn st' = (turn st mod 4 + 1)%Z ∧ turn st' ≠ turn st)
     ∧ (truthy winnerPlayer = true →
          winner st' = getWinnerString winnerPlayer ∧ ¬ in_progress st')
     ∧ (truthy winnerPlayer = false → in_progress st'))
  ∧ (¬ accepted st id → turn st' = turn st ∧ winner st' = winner st).
Proof.
  intros st' winnerPlayer. subst st'. unfold step. split.
  - intros A. rewrite handle_Click_accepted by done. fold winnerPlayer. simpl.
    assert (turn (if truthy winnerPlayer
                  then (mkApp (nextTurn (turn st)) (getWinnerString winnerPlayer)
                          (placed st id), [LaunchFireworks; PlayWin])
                  else (mkApp (nextTurn (turn st)) (winner st) (placed st id),
                          [PlayClick])).1 = nextTurn (turn st)) as Ht.
    { by destruct (truthy winnerPlayer). }
    split; [done|]. split; [|split].
    + intros P. rewrite Ht, nextTurn_round_robin by done.
      split; [done|]. unfold is_player in P.
      assert (turn st = 1 ∨ turn st = 2 ∨ turn st = 3 ∨ turn st = 4)%Z
        as [-> | [-> | [-> | ->]]] by lia; done.
    + intros T. rewrite T. simpl. split; [done|].
      apply getWinnerString_not_default.
    + intros T. rewrite T. simpl. apply A.
  - intros NA. by rewrite handle_Click_rejected.
Qed.

Lemma placeMarker_outcome_witness :
  accepted before_win 4
  ∧ turn (step (Click 4) before_win) = nextTurn (turn before_win)
  ∧ winner (step (Click 4) before_win) = "Player 1 wins!".
Proof.
  assert (accepted before_win 4) as A by (split; reflexivity).
  split; [exact A|].
  destruct (placeMarker_outcome before_win 4) as [Acc _].
  destruct (Acc A) as (Ht & _ & Hw & _).
  split; [exact Ht|]. apply Hw. reflexivity.
Defined.

(** C1, as first stated, fails: after sixteen legal moves player 1 completes
    the top row; the call is let through, the scan reports player 1, the
    winner text is set, and yet Turn has moved from player 1 to player 2. *)
Lemma win_advances_turn :
  accepted before_win 4
  ∧ displayWinner (placed before_win 4) = Num 1
  ∧ winner (step (Click 4) before_win) = getWinnerString (Num 1)
  ∧ turn before_win = 1%Z
  ∧ turn (step (Click 4) before_win) = 2%Z
  ∧ turn (step (Click 4) before_win) ≠ turn before_win.
Proof. repeat split; try reflexivity. vm_compute. discriminate. Qed.

(** C2. A call of [placeMarker] on an occupied cell, or at any index once the
    game is won, is a silent no-op: the handler returns normally (it has no
    failing path), the state is returned whole (cells, Turn and winner text)
    and no effect is raised; repeating the call any number of times, or after
    a win calling it with any indices at all, still leaves the state as it
    was. *)
Theorem rejected_call_is_noop (st : AppState) (id : Z) :
  occupied st id ∨ ¬ in_progress st →
  handle (Click id) st = (st, [])
  ∧ (∀ n, run (replicate n (Click id)) st = (st, []))
  ∧ (¬ in_progress st → ∀ ids, run (Click <$> ids) st = (st, [])).
Proof.
  intros H.
  assert (¬ accepted st id) as NA.
  { destruct H; [by apply occupied_not_accepted | by apply won_not_accepted]. }
  split; [by apply handle_Click_rejected|]. split.
  - intros n. rewrite <- fmap_replicate. apply run_rejected.
    by intros id' [-> _]%elem_of_replicate.
  - intros W ids. apply run_rejected. intros id' _. by apply won_not_accepted.
Qed.

Lemma rejected_call_is_noop_witness :
  occupied before_win 0
  ∧ handle (Click 0) before_win = (before_win, [])
  ∧ run (replicate 3 (Click 0)) before_win = (before_win, []).
Proof.
  assert (occupied before_win 0) as O.
  { exists 1%Z. split; [reflexivity | discriminate]. }
  split; [exact O|].
  destruct (rejected_call_is_noop before_win 0 (or_introl O)) as (H1 & H2 & _).
  split; [exact H1 | exact (H2 3)].
Defined.

(** C8. When [placeMarker] lets a call through, the index lies inside the
    grid and the committed grid is the previous one with that single cell set
    to the Turn of the call, every other cell and the length being kept;
    this holds whether or not the scan finds a winner on it. *)
Theorem accepted_placement_frame (st : AppState) (id : Z) :
  accepted st id →
  let st' := step (Click id) st in
  (0 ≤ id < Z.of_nat (length (allButtons st)))%Z
  ∧ allButtons st' = <[Z.to_nat id := turn st]> (allButtons st)
  ∧ length (allButtons st') = length (allButtons st)
  ∧ read_at (allButtons st') id = Num (turn st)
  ∧ (∀ j, j ≠ id → read_at (allButtons st') j = read_at (allButtons st) j)
  ∧ (truthy (displayWinner (placed st id)) = true → allButtons st' = placed st id)
  ∧ (truthy (displayWinner (placed st id)) = false → allButtons st' = placed st id).
Proof.
  intros A st'.
  assert (allButtons st' = placed st id) as E.
  { subst st'. unfold step. rewrite handle_Click_accepted by done. simpl.
    by destruct (truthy _). }
  destruct A as [R _]. apply read_at_Num in R as (Hid & Hlt & Hcell).
  rewrite E. unfold placed. split; [lia|]. split; [done|].
  split; [apply length_insert|]. split; [|split; [|done]].
  - apply read_at_Num. rewrite length_insert.
    split; [done|]. split; [done|]. by apply list_lookup_insert_eq.
  - intros j Hj. unfold read_at. destruct (j <? 0)%Z eqn:Ej; [done|].
    apply Z.ltb_ge in Ej. unfold read.
    rewrite list_lookup_insert_ne; [done | lia].
Qed.

Lemma accepted_placement_frame_witness :
  accepted before_win 4
  ∧ allButtons (step (Click 4) before_win) = <[4 := 1%Z]> (allButtons before_win).
Proof.
  assert (accepted before_win 4) as A by (split; reflexivity).
  split; [exact A|].
  exact (proj1 (proj2 (accepted_placement_frame before_win 4 A))).
Defined.

(** C9. On a grid of [PLAYGROUND_SIZE] cells, a call of [placeMarker] with an
    integer index below 0 or at least 25 reads [undefined], which differs
    from the empty sentinel, so the guard turns the call away: the handler
    returns normally with the grid, Turn and winner text unchanged and no
    effect raised. *)
Theorem out_of_range_is_noop (st : AppState) (id : Z) :
  length (allButtons st) = PLAYGROUND_SIZE →
  (id < 0 ∨ 25 ≤ id)%Z →
  read_at (allButtons st) id = Undefined
  ∧ Undefined ≠ Num EMPTY_CELL_VALUE
  ∧ ¬ accepted st id
  ∧ handle (Click id) st = (st, []).
Proof.
  intros L H.
  assert (read_at (allButtons st) id = Undefined) as R.
  { apply read_at_outside. rewrite L. unfold PLAYGROUND_SIZE, GRID_SIZE. simpl. lia. }
  assert (¬ accepted st id) as NA.
  { intros [R' _]. congruence. }
  split; [done|]. split; [done|]. split; [done|]. by apply handle_Click_rejected.
Qed.

Lemma out_of_range_is_noop_witness :
  length (allButtons initial) = PLAYGROUND_SIZE
  ∧ handle (Click 25) initial = (initial, [])
  ∧ handle (Click (-1)) initial = (initial, []).
Proof.
  assert (length (allButtons initial) = PLAYGROUND_SIZE) as L by reflexivity.
  split; [exact L|]. split.
  - apply (out_of_range_is_noop initial 25 L). right. lia.
  - apply (out_of_range_is_noop initial (-1) L). left. lia.
Defined.

(** ** Start, restart and the reachable states *)

(** C7. A freshly constructed game is in progress, Turn is player 1 and each
    of the 25 cells is empty; [restartGame], run on any state whatever,
    yields exactly that initial state (and raises the restart sound). *)
Theorem fresh_game_and_restart :
  turn initial = FIRST_PLAYER
  ∧ in_progress initial
  ∧ length (allButtons initial) = PLAYGROUND_SIZE
  ∧ PLAYGROUND_SIZE = 25
  ∧ Forall (λ cell, cell = EMPTY_CELL_VALUE) (allButtons initial)
  ∧ ∀ st, handle Restart st = (initial, [PlayRestart]).
Proof.
  split; [done|]. split; [done|]. split; [apply length_replicate|].
  split; [done|]. split; [|apply handle_Restart].
  by apply Forall_replicate.
Qed.

(** C10. From the initial state, after any sequence of [placeMarker] and
    restart commands, the grid has exactly 25 cells, every cell holds the
    sentinel 9 or a player identifier 1, 2, 3 or 4, and Turn is one of
    1, 2, 3, 4. *)
Theorem reachable_state_invariant (cs : list command) :
  let st := fst (run cs initial) in
  length (allButtons st) = 25
  ∧ Forall (λ cell, cell = 9 ∨ 1 ≤ cell ≤ 4)%Z (allButtons st)
  ∧ (1 ≤ turn st ≤ 4)%Z.
Proof.
  intros st. destruct (run_ok cs initial initial_ok) as [[L C] T]. done.
Qed.

(** ** Turn rotation *)

(** C6. In every reachable state Turn is a player identifier; the successor
    of Turn follows 1→2→3→4→1, so that four advances bring any player's turn
    back to itself; and any four consecutive accepted placements (in
    particular four with no winner) return Turn to where it was, hence to
    player 1 when started at player 1. Each accepted placement moves Turn to
    its successor, which differs from it; a rejected call leaves Turn where it
    is; and any number of consecutive accepted placements advance Turn that
    many times. *)
Theorem turn_round_robin (st : AppState) (i1 i2 i3 i4 : Z) :
  is_player (turn st) →
  all_accepted [i1; i2; i3; i4] st →
  turn (fst (run [Click i1; Click i2; Click i3; Click i4] st)) = turn st
  ∧ (turn st = FIRST_PLAYER →
       turn (fst (run [Click i1; Click i2; Click i3; Click i4] st)) = FIRST_PLAYER)
  ∧ (nextTurn 1 = 2 ∧ nextTurn 2 = 3 ∧ nextTurn 3 = 4 ∧ nextTurn 4 = 1)%Z
  ∧ (∀ t, is_player t → is_player (nextTurn t) ∧ Nat.iter 4 nextTurn t = t)
  ∧ (∀ cs, is_player (turn (fst (run cs initial))))
  ∧ (∀ s id, accepted s id → turn (step (Click id) s) = nextTurn (turn s))
  ∧ (∀ s id, ¬ accepted s id → turn (step (Click id) s) = turn s)
  ∧ (∀ t, is_player t → nextTurn t ≠ t)
  ∧ (∀ ids s, all_accepted ids s →
       turn (fst (run (Click <$> ids) s)) = Nat.iter (length ids) nextTurn (turn s))
  ∧ turn (step (Click i1) st) = nextTurn (turn st)
  ∧ turn (fst (run [Click i1; Click i2] st)) = nextTurn (nextTurn (turn st)).
Proof.
  intros P A.
  assert (turn (fst (run [Click i1; Click i2; Click i3; Click i4] st)) = turn st) as E.
  { change [Click i1; Click i2; Click i3; Click i4] with (Click <$> [i1; i2; i3; i4]).
    rewrite (run_accepted_turn [i1; i2; i3; i4] st A). by apply nextTurn_cycle. }
  assert (∀ s id, accepted s id → turn (step (Click id) s) = nextTurn (turn s))
    as Advance.
  { intros s id Acc. unfold step. rewrite handle_Click_accepted by done. simpl.
    by destruct (truthy _). }
  split; [done|]. split; [congruence|]. split; [done|]. split.
  { intros t Ht. split; [apply nextTurn_player | by apply nextTurn_cycle]. }
  split; [intros cs; apply (run_ok cs initial initial_ok)|].
  split; [exact Advance|].
  split.
  { intros s id NA. unfold step. by rewrite handle_Click_rejected. }
  split.
  { intros t Ht. unfold is_player in Ht.
    assert (t = 1 ∨ t = 2 ∨ t = 3 ∨ t = 4)%Z as [-> | [-> | [-> | ->]]] by lia;
      discriminate. }
  split; [intros ids s Acc; by apply run_accepted_turn|].
  split; [apply Advance, A|].
  destruct A as (A1 & A2 & _).
  change [Click i1; Click i2] with (Click <$> [i1; i2]).
  by rewrite (run_accepted_turn [i1; i2] st (conj A1 (conj A2 I))).
Qed.

Lemma turn_round_robin_witness :
  is_player (turn initial)
  ∧ all_accepted [0; 1; 2; 3]%Z initial
  ∧ turn (fst (run [Click 0; Click 1; Click 2; Click 3] initial)) = FIRST_PLAYER
  ∧ turn (step (Click 0) initial) = nextTurn (turn initial)
  ∧ turn (fst (run [Click 0; Click 1] initial)) = nextTurn (nextTurn (turn initial)).
Proof.
  assert (is_player (turn initial)) as P by (vm_compute; split; discriminate).
  assert (all_accepted [0; 1; 2; 3]%Z initial) as A.
  { repeat split; reflexivity. }
  destruct (turn_round_robin initial 0 1 2 3 P A)
    as (_ & Back & _ & _ & _ & _ & _ & _ & _ & One & Two).
  split; [exact P|]. split; [exact A|]. split; [exact (Back eq_refl)|].
  split; [exact One | exact Two].
Defined.

(** ** The win scan on a grid of 25 cells *)

Section Scan.
Variable buttons : list Z.
Hypothesis Hlen : length buttons = PLAYGROUND_SIZE.

Lemma scan_over_spec_lines :
  displayWinner buttons =
  default Null (first_truthy
    ((λ line : list nat, checkWinnerBatch (read buttons <$> line)) <$> spec_lines)).
Proof.
  rewrite displayWinner_scan, lines_examined_spec by done.
  by rewrite <- list_fmap_compose.
Qed.

Lemma batch_of_line (batch : list value) :
  batch ∈ lines_examined buttons ↔
  ∃ line, line ∈ spec_lines ∧ batch = read buttons <$> line.
Proof.
  rewrite lines_examined_spec by done. rewrite list_elem_of_fmap.
  split; intros (line & H1 & H2); exists line; tauto.
Qed.

Lemma spec_line_nonempty (line : list nat) : line ∈ spec_lines → line ≠ [].
Proof.
  intros [L _]%spec_lines_inside ->. discriminate L.
Qed.

Lemma line_check_won (line : list nat) (p : Z) :
  line ∈ spec_lines →
  checkWinnerBatch (read buttons <$> line) = Num p ↔ line_won buttons line p.
Proof.
  intros Hin. apply checkWinnerBatch_line. by apply spec_line_nonempty.
Qed.

Lemma line_not_won_falsy (line : list nat) :
  line ∈ spec_lines →
  (∀ q, ¬ line_won buttons line q) →
  truthy (checkWinnerBatch (read buttons <$> line)) = false.
Proof.
  intros Hin NW. destruct (truthy _) eqn:T; [|done].
  apply checkWinnerBatch_truthy in T as (p & E & _).
  apply line_check_won in E; [|done]. by destruct (NW p).
Qed.

(** The cells of an examined line are cells of the grid. *)
Lemma line_reads (line : list nat) :
  line ∈ spec_lines →
  ∃ cells, read buttons <$> line = Num <$> cells
           ∧ length cells = GRID_SIZE ∧ cells ⊆ buttons.
Proof.
  intros [L In]%spec_lines_inside. rewrite <- L. clear L.
  induction line as [|i line IH].
  - exists []. split; [done|]. split; [done|]. by intros c ?%elem_of_nil.
  - destruct IH as (cells & E & L & Sub).
    { intros j Hj. apply In. by right. }
    assert (i < length buttons) as Hi by (rewrite Hlen; apply In; left).
    apply lookup_lt_is_Some in Hi as [c Hc].
    exists (c :: cells). split; [|split].
    + rewrite !fmap_cons, E. f_equal. by apply read_lookup.
    + simpl. by rewrite L.
    + intros c' [-> | Hc']%elem_of_cons; [|by apply Sub].
      apply list_elem_of_lookup. by exists i.
Qed.

Lemma line_won_cell (line : list nat) (p : Z) :
  line ∈ spec_lines → line_won buttons line p → p ∈ buttons ∧ p ≠ EMPTY_CELL_VALUE.
Proof.
  intros Hin [Hp A]. split; [|done].
  destruct line as [|i line]; [by apply spec_line_nonempty in Hin|].
  apply list_elem_of_lookup. exists i. apply A. left.
Qed.

(** A won line that crosses every line of the grid decides the scan: no
    other player can own a full line. *)
Lemma crossing_line_wins (cross : list nat) (p : Z) :
  cross ∈ spec_lines →
  (∀ line, line ∈ spec_lines → ∃ i, i ∈ line ∧ i ∈ cross) →
  p ≠ 0%Z →
  line_won buttons cross p →
  displayWinner buttons = Num p.
Proof.
  intros Hcross Meet Hp Won. rewrite scan_over_spec_lines.
  destruct (first_truthy _) as [w|] eqn:F.
  - apply first_truthy_Some in F as (k & Hk & T & _).
    apply list_lookup_fmap_Some_1 in Hk as (line & -> & Hline).
    apply list_elem_of_lookup_2 in Hline.
    apply checkWinnerBatch_truthy in T as (q & E & _).
    rewrite E. simpl. f_equal.
    apply line_check_won in E as [_ A]; [|done].
    destruct (Meet line Hline) as (i & Hi & Hic).
    destruct Won as [_ B]. specialize (A i Hi). specialize (B i Hic). congruence.
  - exfalso. rewrite first_truthy_None in F.
    assert (truthy (checkWinnerBatch (read buttons <$> cross)) = false) as T.
    { apply F. apply list_elem_of_fmap. by exists cross. }
    apply line_check_won in Won; [|done]. rewrite Won in T.
    apply truthy_Num in Hp. congruence.
Qed.
End Scan.

Lemma main_diag_crosses (line : list nat) :
  line ∈ spec_lines → ∃ i, i ∈ line ∧ i ∈ spec_main_diag.
Proof.
  rewrite spec_lines_explicit. intros H.
  repeat (apply elem_of_cons in H as [-> | H];
    [first [ exists 0; split; in_list
           | exists 6; split; in_list
           | exists 12; split; in_list
           | exists 18; split; in_list
           | exists 24; split; in_list ]|]).
  by apply elem_of_nil in H.
Qed.

Lemma anti_diag_crosses (line : list nat) :
  line ∈ spec_lines → ∃ i, i ∈ line ∧ i ∈ spec_anti_diag.
Proof.
  rewrite spec_lines_explicit. intros H.
  repeat (apply elem_of_cons in H as [-> | H];
    [first [ exists 4; split; in_list
           | exists 8; split; in_list
           | exists 12; split; in_list
           | exists 16; split; in_list
           | exists 20; split; in_list ]|]).
  by apply elem_of_nil in H.
Qed.

Lemma some_line_won_truthy (buttons : list Z) (line : list nat) (p : Z) :
  length buttons = PLAYGROUND_SIZE →
  line ∈ spec_lines → line_won buttons line p → p ≠ 0%Z →
  truthy (displayWinner buttons) = true.
Proof.
  intros L Hline Won Hp. rewrite scan_over_spec_lines by done.
  destruct (first_truthy _) as [w|] eqn:F.
  - by apply first_truthy_Some in F as (_ & _ & T & _).
  - exfalso. rewrite first_truthy_None in F.
    assert (truthy (checkWinnerBatch (read buttons <$> line)) = false) as T.
    { apply F. apply list_elem_of_fmap. by exists line. }
    apply line_check_won in Won; [|done]. rewrite Won in T.
    apply truthy_Num in Hp. congruence.
Qed.

Lemma truthy_scan_line (buttons : list Z) :
  length buttons = PLAYGROUND_SIZE →
  truthy (displayWinner buttons) = true →
  ∃ line p, line ∈ spec_lines ∧ line_won buttons line p ∧ p ≠ 0%Z
            ∧ displayWinner buttons = Num p.
Proof.
  intros L T. rewrite scan_over_spec_lines in * by done.
  destruct (first_truthy _) as [w|] eqn:F; [|done].
  apply first_truthy_Some in F as (k & Hk & Tw & _).
  apply list_lookup_fmap_Some_1 in Hk as (line & -> & Hline).
  apply list_elem_of_lookup_2 in Hline.
  apply checkWinnerBatch_truthy in Tw as (p & E & Hp & _).
  exists line, p. split; [done|]. split; [by apply line_check_won|].
  split; [done|]. by rewrite E.
Qed.

(** A number answered by the scan is the owner of a won line. *)
Lemma scan_answer_is_won_line (buttons : list Z) (q : Z) :
  length buttons = PLAYGROUND_SIZE →
  displayWinner buttons = Num q →
  ∃ line, line ∈ spec_lines ∧ line_won buttons line q.
Proof.
  intros L E.
  assert (truthy (displayWinner buttons) = true) as T.
  { rewrite scan_over_spec_lines in * by done.
    destruct (first_truthy _) as [w|] eqn:F; [|discriminate E].
    by apply first_truthy_Some in F as (_ & _ & T & _). }
  destruct (truthy_scan_line buttons L T) as (line & p & Hline & Won & _ & E').
  rewrite E in E'. injection E' as ->. by exists line.
Qed.

(** A won line decides the scan when each line examined before it either
    shares a cell with it or is not won. *)
Lemma decided_by_line (buttons : list Z) (k : nat) (cross : list nat) (p : Z) :
  length buttons = PLAYGROUND_SIZE →
  spec_lines !! k = Some cross →
  line_won buttons cross p →
  p ≠ 0%Z →
  (∀ j line, j < k → spec_lines !! j = Some line →
     (∃ i, i ∈ line ∧ i ∈ cross) ∨ (∀ q, ¬ line_won buttons line q)) →
  displayWinner buttons = Num p.
Proof.
  intros L Hk Won Hp Before. rewrite scan_over_spec_lines by done.
  pose proof (list_elem_of_lookup_2 _ _ _ Hk) as Hcross.
  pose proof Won as Check. apply (line_check_won buttons cross p Hcross) in Check.
  set (ws := (λ line : list nat, checkWinnerBatch (read buttons <$> line)) <$> spec_lines).
  assert (ws !! k = Some (Num p)) as Wk.
  { subst ws. rewrite list_lookup_fmap, Hk. simpl. by rewrite Check. }
  assert (truthy (Num p) = true) as Tp by by apply truthy_Num.
  destruct (first_truthy ws) as [w|] eqn:F.
  - apply first_truthy_Some in F as (k' & Hk' & T & NoEarlier). simpl.
    destruct (lt_eq_lt_dec k k') as [[Lt | ->] | Gt].
    + rewrite (NoEarlier k (Num p) Lt Wk) in Tp. discriminate Tp.
    + congruence.
    + subst ws. apply list_lookup_fmap_Some_1 in Hk' as (line & -> & Hline).
      apply checkWinnerBatch_truthy in T as (q & E & _).
      rewrite E. f_equal.
      apply (line_check_won buttons line q (list_elem_of_lookup_2 _ _ _ Hline)) in E.
      destruct (Before k' line Gt Hline) as [(i & Hi & Hic) | NW].
      * destruct E as [_ A]. destruct Won as [_ B].
        specialize (A i Hi). specialize (B i Hic). congruence.
      * by destruct (NW q).
  - exfalso. rewrite first_truthy_None in F.
    rewrite (F (Num p)) in Tp; [discriminate Tp|].
    apply list_elem_of_lookup. by exists k.
Qed.

(** Every row meets the first column. *)
Lemma rows_meet_first_column (j : nat) (line : list nat) :
  j < 5 → spec_lines !! j = Some line → ∃ i, i ∈ line ∧ i ∈ [0; 5; 10; 15; 20].
Proof.
  intros Hj Hline.
  do 5 (destruct j as [|j];
    [injection Hline as <-;
     first [ exists 0; split; in_list | exists 5; split; in_list
           | exists 10; split; in_list | exists 15; split; in_list
           | exists 20; split; in_list ]|]).
  lia.
Qed.

Lemma uniform_Forall (batch : list value) (p : Z) :
  length batch = GRID_SIZE →
  Forall (λ cell, cell = Num p) batch ↔ batch = uniform p.
Proof.
  intros L. unfold uniform. split.
  - intros A. symmetry. apply replicate_as_Forall. split; [done|].
    eapply Forall_impl; [exact A|]. by intros c ->.
  - intros ->. by apply Forall_replicate.
Qed.

(** The answer of the batch check on a line of a well-formed grid. *)
Lemma line_check_player (buttons : list Z) (line : list nat) :
  well_formed buttons → line ∈ spec_lines →
  checkWinnerBatch (read buttons <$> line) = Null
  ∨ ∃ p, is_player p ∧ checkWinnerBatch (read buttons <$> line) = Num p.
Proof.
  intros [L C] Hin.
  destruct (checkWinnerBatch_cases (read buttons <$> line)) as [N | (F & NE & A)];
    [by left | right].
  destruct (line_reads buttons L line Hin) as (cells & E & Lc & Sub).
  rewrite E in *. destruct cells as [|c cells]; [discriminate Lc|].
  simpl in F, NE. exists c. split; [|done].
  rewrite Forall_forall in C.
  destruct (C c) as [-> | P]; [apply Sub; left | done | done].
Qed.

Lemma displayWinner_player (buttons : list Z) :
  well_formed buttons →
  displayWinner buttons = Null ∨ ∃ p, is_player p ∧ displayWinner buttons = Num p.
Proof.
  intros WF. rewrite scan_over_spec_lines by apply WF.
  destruct (first_truthy _) as [w|] eqn:F; [right | by left].
  apply first_truthy_Some in F as (k & Hk & T & _).
  apply list_lookup_fmap_Some_1 in Hk as (line & -> & Hline).
  apply list_elem_of_lookup_2 in Hline.
  destruct (line_check_player buttons line WF Hline) as [N | (p & P & E)].
  - rewrite N in T. discriminate T.
  - exists p. by rewrite E.
Qed.

Lemma one_cell_differs (p q : Z) (k : nat) :
  q ≠ p → k < GRID_SIZE → checkWinnerBatch (<[k := Num q]> (uniform p)) = Null.
Proof.
  intros Hq Hk.
  destruct (checkWinnerBatch_cases (<[k := Num q]> (uniform p))) as [N | (_ & _ & A)];
    [done | exfalso].
  rewrite Forall_lookup in A.
  assert (<[k := Num q]> (uniform p) !! k = Some (Num q)) as Ek.
  { apply list_lookup_insert_eq. unfold uniform. by rewrite length_replicate. }
  set (k' := if decide (k = 0) then 1 else 0).
  assert (k ≠ k' ∧ k' < GRID_SIZE) as [Hne Hk'].
  { subst k'. unfold GRID_SIZE. case_decide; lia. }
  assert (<[k := Num q]> (uniform p) !! k' = Some (Num p)) as Ek'.
  { rewrite list_lookup_insert_ne by done. by apply lookup_replicate_2. }
  apply A in Ek, Ek'. congruence.
Qed.

(** C3. The win scan is total on well-formed grids and answers [null] or a
    player. Each of the batches it examines has [GRID_SIZE] cells and is
    reported as won by [p] exactly when all its cells hold [p] and [p] is not
    the empty sentinel; so the scan never answers the sentinel, the all-empty
    grid has no winner, and a batch of [GRID_SIZE] equal cells in which one
    cell is replaced by a different value is not won. The answer of the scan
    is the first truthy check among those batches, which are the cells of the
    lines of the grid: it answers a player exactly when some line is won, the
    player it answers owns a won line, and it answers [null] exactly when no
    line is won. *)
Theorem win_scan_exact (buttons : list Z) :
  well_formed buttons →
  (∀ batch, batch ∈ lines_examined buttons →
     length batch = GRID_SIZE
     ∧ (∀ p, checkWinnerBatch batch = Num p ↔ p ≠ EMPTY_CELL_VALUE ∧ batch = uniform p)
     ∧ (truthy (checkWinnerBatch batch) = true ↔
        ∃ p, p ≠ EMPTY_CELL_VALUE ∧ batch = uniform p)
     ∧ (checkWinnerBatch batch = Null
        ∨ ∃ p, is_player p ∧ checkWinnerBatch batch = Num p))
  ∧ displayWinner buttons ≠ Num EMPTY_CELL_VALUE
  ∧ (displayWinner buttons = Null ∨ ∃ p, is_player p ∧ displayWinner buttons = Num p)
  ∧ displayWinner fresh_grid = Null
  ∧ (∀ p q k, q ≠ p → k < GRID_SIZE →
       checkWinnerBatch (<[k := Num q]> (uniform p)) = Null)
  ∧ displayWinner buttons
    = default Null (first_truthy (checkWinnerBatch <$> lines_examined buttons))
  ∧ lines_examined buttons = (λ line : list nat, read buttons <$> line) <$> spec_lines
  ∧ (∀ p, displayWinner buttons = Num p →
       ∃ line, line ∈ spec_lines ∧ line_won buttons line p)
  ∧ (∀ line p, line ∈ spec_lines → line_won buttons line p →
       ∃ q, is_player q ∧ displayWinner buttons = Num q
            ∧ ∃ line', line' ∈ spec_lines ∧ line_won buttons line' q)
  ∧ (displayWinner buttons = Null
     ↔ ∀ line q, line ∈ spec_lines → ¬ line_won buttons line q).
Proof.
  intros WF. pose proof WF as [L C].
  assert (∀ line p, line ∈ spec_lines → line_won buttons line p →
            ∃ q, is_player q ∧ displayWinner buttons = Num q) as Reported.
  { intros line p Hline Won.
    destruct (line_won_cell buttons line p Hline Won) as [Hin Hp9].
    pose proof C as C'. rewrite Forall_forall in C'.
    destruct (C' p Hin) as [-> | P]; [done|].
    assert (truthy (displayWinner buttons) = true) as T.
    { apply (some_line_won_truthy buttons line p L Hline Won).
      unfold is_player in P. lia. }
    destruct (displayWinner_player buttons WF) as [N | (q & Q & E)].
    - rewrite N in T. discriminate T.
    - by exists q. }
  pose proof (λ p, scan_answer_is_won_line buttons p L) as Found.
  split.
  { intros batch (line & Hline & ->)%batch_of_line; [|done].
    pose proof (line_check_player buttons line WF Hline) as Cases.
    assert (length (read buttons <$> line) = GRID_SIZE) as Lb.
    { rewrite length_fmap. by apply spec_lines_inside. }
    assert (∀ p, checkWinnerBatch (read buttons <$> line) = Num p ↔
                 p ≠ EMPTY_CELL_VALUE ∧ read buttons <$> line = uniform p) as Iff.
    { intros p. rewrite checkWinnerBatch_Num, uniform_Forall by done.
      split; [tauto|]. intros [Hp E]. split; [|done].
      intros E'. rewrite E' in Lb. discriminate Lb. }
    split; [done|]. split; [done|]. split; [|done].
    split.
    + intros (p & E & _)%truthy_is_Num. exists p. by apply Iff.
    + intros (p & Hp). apply Iff in Hp as E.
      destruct Cases as [N | (q & Q & E')]; [congruence|].
      rewrite E'. by apply is_player_truthy. }
  split.
  { destruct (displayWinner_player buttons WF) as [-> | (p & P & ->)]; [done|].
    unfold is_player, EMPTY_CELL_VALUE in *. intros [= ->]. lia. }
  split; [by apply displayWinner_player|].
  split; [reflexivity|].
  split; [apply one_cell_differs|].
  split; [apply displayWinner_scan|].
  split; [by apply lines_examined_spec|].
  split; [exact Found|].
  split.
  { intros line p Hline Won.
    destruct (Reported line p Hline Won) as (q & Q & E).
    exists q. split; [done|]. split; [done|]. by apply Found. }
  split.
  - intros N line q Hline Won.
    destruct (Reported line q Hline Won) as (q' & _ & E). congruence.
  - intros None_won.
    destruct (displayWinner_player buttons WF) as [N | (p & _ & E)]; [done|].
    destruct (Found p E) as (line & Hline & Won). by destruct (None_won line p Hline).
Qed.

Lemma win_scan_exact_witness :
  well_formed two_rows
  ∧ displayWinner two_rows ≠ Num EMPTY_CELL_VALUE
  ∧ displayWinner fresh_grid = Null
  ∧ line_won two_rows [5; 6; 7; 8; 9] 3
  ∧ ∃ q, is_player q ∧ displayWinner two_rows = Num q.
Proof.
  assert (well_formed two_rows) as WF.
  { split; [reflexivity|].
    repeat (apply Forall_cons; split;
      [first [by left | right; unfold is_player; lia]|]).
    apply Forall_nil_2. }
  assert (line_won two_rows [5; 6; 7; 8; 9] 3) as Won.
  { split; [discriminate|]. intros i Hi.
    repeat (apply elem_of_cons in Hi as [-> | Hi]; [reflexivity|]).
    by apply elem_of_nil in Hi. }
  assert ([5; 6; 7; 8; 9] ∈ spec_lines) as Hline by in_list.
  split; [exact WF|].
  destruct (win_scan_exact two_rows WF)
    as (_ & H1 & _ & H2 & _ & _ & _ & _ & Reported & _).
  split; [exact H1|]. split; [exact H2|]. split; [exact Won|].
  destruct (Reported [5; 6; 7; 8; 9] 3%Z Hline Won) as (q & Q & E & _).
  exists q. split; [exact Q | exact E].
Defined.

(** C4. On every well-formed grid, however it was built, the batches the
    scan examines are the cells of the rows in ascending order, then of the
    columns in ascending order, then of the main diagonal, then of the
    anti-diagonal; the scan answers the player of the first won line in that
    order whatever the later lines hold, and [null] when no line is won. With
    row 1 held by player 3 and row 2 by player 2 it answers player 3. *)
Theorem win_scan_order (buttons : list Z) :
  well_formed buttons →
  lines_examined buttons = (λ line : list nat, read buttons <$> line) <$> spec_lines
  ∧ spec_lines =
      (spec_row <$> [0; 1; 2; 3; 4]) ++ (spec_col <$> [0; 1; 2; 3; 4])
      ++ [spec_main_diag; spec_anti_diag]
  ∧ (∀ k line p,
       spec_lines !! k = Some line →
       line_won buttons line p →
       (∀ j line' q, j < k → spec_lines !! j = Some line' → ¬ line_won buttons line' q) →
       displayWinner buttons = Num p)
  ∧ ((∀ line q, line ∈ spec_lines → ¬ line_won buttons line q) →
       displayWinner buttons = Null)
  ∧ displayWinner two_rows = Num 3.
Proof.
  intros WF. pose proof WF as [L C].
  split; [by apply lines_examined_spec|]. split; [reflexivity|].
  split; [|split; [|reflexivity]].
  - intros k line p Hk Won First. rewrite scan_over_spec_lines by done.
    pose proof (list_elem_of_lookup_2 _ _ _ Hk) as Hline.
    assert (is_player p) as P.
    { destruct (line_won_cell buttons line p Hline Won) as [Hin Hp].
      rewrite Forall_forall in C. by destruct (C p Hin). }
    apply (line_check_won buttons line p Hline) in Won.
    rewrite (first_truthy_at _ k (Num p)); [done | | |].
    + rewrite list_lookup_fmap, Hk. simpl. by rewrite Won.
    + by apply is_player_truthy.
    + intros j w' Hj Hw'.
      apply list_lookup_fmap_Some_1 in Hw' as (line' & -> & Hline').
      apply line_not_won_falsy; [by eapply list_elem_of_lookup_2 |].
      intros q. by apply (First j line' q).
  - intros None_won. rewrite scan_over_spec_lines by done.
    assert (first_truthy ((λ line : list nat, checkWinnerBatch (read buttons <$> line))
                            <$> spec_lines) = None) as ->; [|done].
    apply first_truthy_None. intros w (line & -> & Hline)%list_elem_of_fmap.
    apply line_not_won_falsy; [done|]. intros q. by apply None_won.
Qed.

Lemma win_scan_order_witness :
  well_formed two_rows
  ∧ spec_lines !! 1 = Some [5; 6; 7; 8; 9]
  ∧ line_won two_rows [5; 6; 7; 8; 9] 3
  ∧ displayWinner two_rows = Num 3.
Proof.
  assert (well_formed two_rows) as WF.
  { split; [reflexivity|].
    repeat (apply Forall_cons; split;
      [first [by left | right; unfold is_player; lia]|]).
    apply Forall_nil_2. }
  assert (line_won two_rows [5; 6; 7; 8; 9] 3) as Won.
  { split; [discriminate|]. intros i Hi.
    repeat (apply elem_of_cons in Hi as [-> | Hi]; [reflexivity|]).
    by apply elem_of_nil in Hi. }
  split; [exact WF|]. split; [reflexivity|]. split; [exact Won|].
  destruct (win_scan_order two_rows WF) as (_ & _ & First & _).
  apply (First 1 [5; 6; 7; 8; 9] 3%Z eq_refl Won).
  intros j line' q Hj Hline' [Hq A].
  assert (j = 0) as -> by lia. injection Hline' as <-.
  specialize (A 0 (list_elem_of_here _ _)). vm_compute in A.
  injection A as <-. by apply Hq.
Defined.

(** C5. On a grid of 25 cells the scan examines 5 row batches, 5 column
    batches and 2 diagonal batches, 12 in all, of 5 cells each; the main
    diagonal is read at indices 0, 6, 12, 18, 24 (the multiples of N+1) and
    the anti-diagonal at 4, 8, 12, 16, 20 (the multiples of N-1 from N-1 on).
    A grid whose cells 0, 6, 12, 18, 24 all hold player 1 is reported won by
    player 1, and one whose cells 4, 8, 12, 16, 20 all hold player 4 by
    player 4, whatever the other cells hold. The answer of the scan is the
    first truthy check among the 12 batches, which are the cells of the rows,
    the columns and the two diagonals in that order: the first won line
    decides it, every number it answers owns one of the 12 lines, a first row
    of player 2 is reported won by player 2 and a first column of player 3 by
    player 3. *)
Theorem win_scan_geometry (buttons : list Z) :
  length buttons = PLAYGROUND_SIZE →
  length (for_indices 0 (length buttons) GRID_SIZE) = GRID_SIZE
  ∧ length (for_indices 0 GRID_SIZE 1) = GRID_SIZE
  ∧ length (lines_examined buttons) = 2 * GRID_SIZE + 2
  ∧ (∀ batch, batch ∈ lines_examined buttons → length batch = GRID_SIZE)
  ∧ spec_main_diag = [0; 6; 12; 18; 24]
  ∧ spec_anti_diag = [4; 8; 12; 16; 20]
  ∧ topLeftToBottomRightScan buttons = read buttons <$> spec_main_diag
  ∧ topRightToBottomLeftScan buttons = read buttons <$> spec_anti_diag
  ∧ ((∀ i, i ∈ [0; 6; 12; 18; 24] → buttons !! i = Some 1%Z) →
       displayWinner buttons = Num 1)
  ∧ ((∀ i, i ∈ [4; 8; 12; 16; 20] → buttons !! i = Some 4%Z) →
       displayWinner buttons = Num 4)
  ∧ displayWinner buttons
    = default Null (first_truthy (checkWinnerBatch <$> lines_examined buttons))
  ∧ lines_examined buttons = (λ line : list nat, read buttons <$> line) <$> spec_lines
  ∧ spec_lines =
      [ [0; 1; 2; 3; 4]; [5; 6; 7; 8; 9]; [10; 11; 12; 13; 14];
        [15; 16; 17; 18; 19]; [20; 21; 22; 23; 24];
        [0; 5; 10; 15; 20]; [1; 6; 11; 16; 21]; [2; 7; 12; 17; 22];
        [3; 8; 13; 18; 23]; [4; 9; 14; 19; 24];
        [0; 6; 12; 18; 24]; [4; 8; 12; 16; 20] ]
  ∧ (∀ k line p,
       spec_lines !! k = Some line →
       line_won buttons line p →
       p ≠ 0%Z →
       (∀ j line' q, j < k → spec_lines !! j = Some line' → ¬ line_won buttons line' q) →
       displayWinner buttons = Num p)
  ∧ (∀ q, displayWinner buttons = Num q →
       ∃ line, line ∈ spec_lines ∧ line_won buttons line q)
  ∧ ((∀ i, i ∈ [0; 1; 2; 3; 4] → buttons !! i = Some 2%Z) →
       displayWinner buttons = Num 2)
  ∧ ((∀ i, i ∈ [0; 5; 10; 15; 20] → buttons !! i = Some 3%Z) →
       displayWinner buttons = Num 3).
Proof.
  intros L.
  split; [by rewrite L|]. split; [reflexivity|].
  split; [by rewrite lines_examined_spec by done|].
  split.
  { intros batch (line & Hline & ->)%batch_of_line; [|done].
    rewrite length_fmap. by apply spec_lines_inside. }
  split; [reflexivity|]. split; [reflexivity|].
  split; [unfold topLeftToBottomRightScan; by rewrite L|].
  split; [unfold topRightToBottomLeftScan; by rewrite L|].
  split.
  { intros Diag.
    apply (crossing_line_wins buttons L spec_main_diag); [in_list | | done |].
    + apply main_diag_crosses.
    + split; [discriminate | exact Diag]. }
  split.
  { intros Diag.
    apply (crossing_line_wins buttons L spec_anti_diag); [in_list | | done |].
    + apply anti_diag_crosses.
    + split; [discriminate | exact Diag]. }
  split; [apply displayWinner_scan|].
  split; [by apply lines_examined_spec|].
  split; [apply spec_lines_explicit|].
  split.
  { intros k line p Hk Won Hp First.
    apply (decided_by_line buttons k line p L Hk Won Hp).
    intros j line' Hj Hline'. right. intros q. by apply (First j line' q). }
  split; [intros q; by apply scan_answer_is_won_line|].
  split.
  - intros Row.
    apply (decided_by_line buttons 0 [0; 1; 2; 3; 4] 2%Z L eq_refl);
      [split; [discriminate | exact Row] | discriminate |].
    intros j line Hj. lia.
  - intros Col.
    apply (decided_by_line buttons 5 [0; 5; 10; 15; 20] 3%Z L eq_refl);
      [split; [discriminate | exact Col] | discriminate |].
    intros j line Hj Hline. left. by apply (rows_meet_first_column j).
Qed.

Lemma win_scan_geometry_witness :
  length main_diag_1 = PLAYGROUND_SIZE
  ∧ length anti_diag_4 = PLAYGROUND_SIZE
  ∧ displayWinner main_diag_1 = Num 1
  ∧ displayWinner anti_diag_4 = Num 4
  ∧ displayWinner two_rows = Num 3.
Proof.
  assert (∀ (l : list Z) (line : list nat) (p : Z),
            Forall (λ i, l !! i = Some p) line → ∀ i, i ∈ line → l !! i = Some p)
    as Cells.
  { intros l line p A i Hi. rewrite Forall_forall in A. by apply A. }
  split; [reflexivity|]. split; [reflexivity|]. split; [|split].
  - destruct (win_scan_geometry main_diag_1 eq_refl)
      as (_ & _ & _ & _ & _ & _ & _ & _ & Main & _).
    apply Main, Cells. repeat (constructor; [reflexivity|]). constructor.
  - destruct (win_scan_geometry anti_diag_4 eq_refl)
      as (_ & _ & _ & _ & _ & _ & _ & _ & _ & Anti & _).
    apply Anti, Cells. repeat (constructor; [reflexivity|]). constructor.
  - destruct (win_scan_geometry two_rows eq_refl)
      as (_ & _ & _ & _ & _ & _ & _ & _ & _ & _ & _ & _ & _ & First & _).
    apply (First 1 [5; 6; 7; 8; 9] 3%Z eq_refl); [split; [discriminate|] | discriminate |].
    + apply Cells. repeat (constructor; [reflexivity|]). constructor.
    + intros j line' q Hj Hline' [Hq A].
      assert (j = 0) as -> by lia. injection Hline' as <-.
      specialize (A 0 (list_elem_of_here _ _)). vm_compute in A.
      injection A as <-. by apply Hq.
Defined.

(** * Further properties of the component *)

(** ** Counting markers *)

Lemma filter_insert_length {A : Type} (P : A → Prop) `{!∀ x, Decision (P x)}
    (l : list A) (i : nat) (x y : A) :
  l !! i = Some x →
  length (filter P (<[i := y]> l)) + (if decide (P x) then 1 else 0)
  = length (filter P l) + (if decide (P y) then 1 else 0).
Proof.
  revert i. induction l as [|a l IH]; intros [|i] Hi; try done; simpl in *.
  - injection Hi as ->. rewrite !filter_cons.
    repeat case_decide; simpl; try done; lia.
  - specialize (IH i Hi). rewrite !filter_cons.
    destruct (decide (P a)); simpl; lia.
Qed.

Lemma count_cells_placed (p old new : Z) (buttons : list Z) (i : nat) :
  buttons !! i = Some old →
  count_cells p (<[i := new]> buttons) + (if decide (old = p) then 1 else 0)
  = count_cells p buttons + (if decide (new = p) then 1 else 0).
Proof.
  intros Hi. unfold count_cells.
  exact (filter_insert_length (λ c, c = p) buttons i old new Hi).
Qed.

Lemma markers_placed (old new : Z) (buttons : list Z) (i : nat) :
  buttons !! i = Some old →
  markers (<[i := new]> buttons) + (if decide (old ≠ EMPTY_CELL_VALUE) then 1 else 0)
  = markers buttons + (if decide (new ≠ EMPTY_CELL_VALUE) then 1 else 0).
Proof.
  intros Hi. unfold markers.
  exact (filter_insert_length (λ c, c ≠ EMPTY_CELL_VALUE) buttons i old new Hi).
Qed.

Lemma accepted_cell (st : AppState) (id : Z) :
  accepted st id →
  (0 ≤ id)%Z ∧ allButtons st !! Z.to_nat id = Some EMPTY_CELL_VALUE ∧ in_progress st.
Proof.
  intros [R P]. apply read_at_Num in R as (H0 & _ & Hc). done.
Qed.

(** The state after a command, by cases on the guard. *)
Lemma step_Click_cases (st : AppState) (id : Z) :
  (¬ accepted st id ∧ step (Click id) st = st)
  ∨ (accepted st id
     ∧ turn (step (Click id) st) = nextTurn (turn st)
     ∧ allButtons (step (Click id) st) = placed st id
     ∧ winner (step (Click id) st) =
         if truthy (displayWinner (placed st id))
         then getWinnerString (displayWinner (placed st id)) else winner st).
Proof.
  unfold step. destruct (decide (accepted st id)) as [A | NA].
  - right. split; [done|]. rewrite handle_Click_accepted by done. simpl.
    by destruct (truthy _).
  - left. split; [done|]. by rewrite handle_Click_rejected.
Qed.

Lemma initial_tally : tally_ok initial.
Proof.
  split; [reflexivity|]. intros p Hp. unfold is_player in Hp.
  assert (p = 1 ∨ p = 2 ∨ p = 3 ∨ p = 4)%Z as [-> | [-> | [-> | ->]]] by lia;
    reflexivity.
Qed.

Lemma step_tally (c : command) (st : AppState) : tally_ok st → tally_ok (step c st).
Proof.
  intros [T Cnt]. destruct c as [id|]; [|apply initial_tally].
  destruct (step_Click_cases st id) as [[_ ->] | (A & Et & Eg & _)]; [done|].
  apply accepted_cell in A as (_ & Hc & _).
  assert (is_player (turn st)) as Pt.
  { rewrite T. unfold is_player. Z.div_mod_to_equations. lia. }
  assert (markers (placed st id) = S (markers (allButtons st))) as Em.
  { pose proof (markers_placed _ (turn st) _ _ Hc) as M. unfold placed.
    destruct (decide (EMPTY_CELL_VALUE ≠ EMPTY_CELL_VALUE)); [done|].
    destruct (decide (turn st ≠ EMPTY_CELL_VALUE)) as [_ | E]; [lia|].
    unfold is_player, EMPTY_CELL_VALUE in *. lia. }
  unfold tally_ok. rewrite Et, Eg, Em. split.
  - rewrite T. unfold nextTurn, FIRST_PLAYER, SECOND_PLAYER, THIRD_PLAYER, FOURTH_PLAYER.
    rewrite Nat2Z.inj_succ. repeat case_match; Z.div_mod_to_equations; lia.
  - intros p Hp. specialize (Cnt p Hp).
    pose proof (count_cells_placed p _ (turn st) _ _ Hc) as M. fold (placed st id) in M.
    destruct (decide (EMPTY_CELL_VALUE = p)) as [E | _].
    { unfold is_player, EMPTY_CELL_VALUE in *. lia. }
    unfold is_player in Hp. rewrite Nat2Z.inj_succ.
    destruct (decide (turn st = p)) as [E | NE]; Z.div_mod_to_equations; lia.
Qed.

Lemma run_tally (cs : list command) (st : AppState) :
  tally_ok st → tally_ok (fst (run cs st)).
Proof.
  revert st. induction cs as [|c cs IH]; intros st Ok; [done|].
  rewrite run_cons. simpl. apply IH. by apply step_tally.
Qed.

(** X1. In every reachable state, with [n] markers on the grid, Turn is player
    [n mod 4 + 1] and player [p] owns [(n + 4 - p) / 4] of them: the players
    have moved in strict rotation, so a player never owns fewer markers than
    a later player and never over one more. *)
Theorem markers_follow_rotation (cs : list command) :
  let st := fst (run cs initial) in
  let n := Z.of_nat (markers (allButtons st)) in
  let owned p := Z.of_nat (count_cells p (allButtons st)) in
  turn st = (n mod 4 + 1)%Z
  ∧ (∀ p, is_player p → owned p = ((n + 4 - p) / 4)%Z)
  ∧ (∀ p q, is_player p → is_player q → (p ≤ q)%Z →
       (owned q ≤ owned p ≤ owned q + 1)%Z).
Proof.
  intros st n owned. destruct (run_tally cs initial initial_tally) as [T Cnt].
  fold st in T, Cnt. fold n in T, Cnt.
  split; [done|]. split; [done|].
  intros p q Hp Hq Hpq. subst owned. simpl. rewrite (Cnt p Hp), (Cnt q Hq).
  unfold is_player in *. Z.div_mod_to_equations. lia.
Qed.

Lemma markers_follow_rotation_witness :
  is_player 1 ∧ is_player 4
  ∧ Z.of_nat (count_cells 1 (allButtons before_win)) = 4%Z
  ∧ (Z.of_nat (count_cells 4 (allButtons before_win))
     ≤ Z.of_nat (count_cells 1 (allButtons before_win)))%Z.
Proof.
  assert (is_player 1) as P1 by (unfold is_player; lia).
  assert (is_player 4) as P4 by (unfold is_player; lia).
  split; [exact P1|]. split; [exact P4|].
  destruct (markers_follow_rotation opening) as (_ & Own & Fair).
  split; [exact (Own 1%Z P1)|].
  apply (Fair 1%Z 4%Z P1 P4). lia.
Defined.

(** ** Who wins *)

(** A line that is won after one cell was written, on a grid where the scan
    found nothing, passes through that cell and is won by what was written. *)
Lemma new_line_through_cell (buttons : list Z) (i : nat) (t : Z)
    (line : list nat) (p : Z) :
  length buttons = PLAYGROUND_SIZE →
  truthy (displayWinner buttons) = false →
  i < length buttons →
  line ∈ spec_lines → line_won (<[i := t]> buttons) line p → p ≠ 0%Z →
  i ∈ line ∧ p = t.
Proof.
  intros L Old Hi Hline Won Hp.
  destruct (decide (i ∈ line)) as [In | Out].
  - split; [done|]. destruct Won as [_ A]. pose proof (A i In) as Ai.
    rewrite list_lookup_insert_eq in Ai by done. by injection Ai.
  - exfalso.
    assert (line_won buttons line p) as Won'.
    { destruct Won as [Hp9 A]. split; [done|]. intros j Hj.
      rewrite <- (A j Hj). symmetry. apply list_lookup_insert_ne.
      intros ->. done. }
    rewrite (some_line_won_truthy buttons line p L Hline Won' Hp) in Old.
    discriminate Old.
Qed.

(** X2. On a grid of 25 cells where the scan finds no winner, writing [t]
    into one cell can only make the scan find [t]: the line that becomes won
    passes through the cell just written. The player who moves is the only
    one who can win by the move. *)
Theorem winning_move_is_own (buttons : list Z) (i : nat) (t : Z) :
  length buttons = PLAYGROUND_SIZE →
  truthy (displayWinner buttons) = false →
  i < length buttons →
  truthy (displayWinner (<[i := t]> buttons)) = true →
  displayWinner (<[i := t]> buttons) = Num t
  ∧ ∃ line, line ∈ spec_lines ∧ i ∈ line ∧ line_won (<[i := t]> buttons) line t.
Proof.
  intros L Old Hi New.
  assert (length (<[i := t]> buttons) = PLAYGROUND_SIZE) as L'
    by by rewrite length_insert.
  destruct (truthy_scan_line _ L' New) as (line & p & Hline & Won & Hp & E).
  destruct (new_line_through_cell buttons i t line p L Old Hi Hline Won Hp)
    as [In ->].
  split; [done|]. by exists line.
Qed.

Lemma winning_move_is_own_witness :
  length (allButtons before_win) = PLAYGROUND_SIZE
  ∧ truthy (displayWinner (allButtons before_win)) = false
  ∧ displayWinner (<[4 := 1%Z]> (allButtons before_win)) = Num 1.
Proof.
  split; [reflexivity|]. split; [reflexivity|].
  apply (winning_move_is_own (allButtons before_win) 4 1%Z);
    [reflexivity | reflexivity | vm_compute; lia | reflexivity].
Defined.

Lemma initial_status : status_ok initial.
Proof. left. split; reflexivity. Qed.

Lemma step_status (c : command) (st : AppState) :
  state_ok st → status_ok st → status_ok (step c st).
Proof.
  intros Ok S. destruct c as [id|]; [|apply initial_status].
  destruct (step_Click_cases st id) as [[_ ->] | (A & Et & Eg & Ew)]; [done|].
  destruct S as [[_ Scan] | (p & _ & W & _)].
  2:{ destruct A as [_ P]. unfold in_progress in P. rewrite W in P.
      by apply getWinnerString_not_default in P. }
  pose proof (placed_well_formed st id Ok) as WF.
  pose proof A as (Hid & Hc & P)%accepted_cell.
  destruct (truthy (displayWinner (placed st id))) eqn:T.
  - right. exists (turn st).
    destruct (truthy_scan_line _ (proj1 WF) T) as (line & p & Hline & LW & Hp & E).
    destruct (new_line_through_cell (allButtons st) (Z.to_nat id) (turn st) line p)
      as [_ ->]; [apply Ok | by rewrite Scan | by apply lookup_lt_Some in Hc
                 | done | exact LW | done |].
    split; [apply Ok|]. rewrite Ew, Eg, Et, E. done.
  - left. unfold in_progress. rewrite Ew, Eg. split; [done|].
    destruct (displayWinner_player _ WF) as [N | (q & Q & E)]; [done|].
    rewrite E, is_player_truthy in T by done. discriminate T.
Qed.

Lemma run_status (cs : list command) (st : AppState) :
  state_ok st → status_ok st → status_ok (fst (run cs st)).
Proof.
  revert st. induction cs as [|c cs IH]; intros st Ok S; [done|].
  rewrite run_cons. simpl. apply IH; [by apply step_ok | by apply step_status].
Qed.

(** X3. In every reachable state the winner text agrees with the grid:
    either it is the default text and the scan of the grid finds no winner,
    or it is the text of a player [p], the scan of the grid answers [p], and
    [p] made the last move (Turn is [p]'s successor). *)
Theorem winner_text_matches_grid (cs : list command) :
  let st := fst (run cs initial) in
  (winner st = DEFAULT_WINNER_TEXT ∧ displayWinner (allButtons st) = Null)
  ∨ ∃ p, is_player p
         ∧ winner st = getWinnerString (Num p)
         ∧ displayWinner (allButtons st) = Num p
         ∧ turn st = nextTurn p.
Proof.
  intros st. exact (run_status cs initial initial_ok initial_status).
Qed.

(** ** Sequences of placements *)

Lemma run_app (cs cs' : list command) (st : AppState) :
  run (cs ++ cs') st =
  (fst (run cs' (fst (run cs st))), snd (run cs st) ++ snd (run cs' (fst (run cs st)))).
Proof.
  revert st. induction cs as [|c cs IH]; intros st.
  - simpl. by destruct (run cs' st).
  - rewrite <- app_comm_cons, !run_cons, IH. simpl. by rewrite app_assoc.
Qed.

(** X4. A marker, once on the grid, is never overwritten or removed by
    placements: after any sequence of [placeMarker] calls, with any indices,
    a cell that held a value other than the sentinel still holds it. Only
    restart clears a cell. *)
Theorem markers_stay (ids : list Z) (st : AppState) (i : nat) (p : Z) :
  allButtons st !! i = Some p →
  p ≠ EMPTY_CELL_VALUE →
  allButtons (fst (run (Click <$> ids) st)) !! i = Some p.
Proof.
  revert st. induction ids as [|id ids IH]; intros st Hi Hp; [done|].
  rewrite fmap_cons, run_cons. simpl. apply IH; [|done].
  destruct (step_Click_cases st id) as [[_ ->] | (A & _ & -> & _)]; [done|].
  apply accepted_cell in A as (_ & Hc & _). unfold placed.
  rewrite list_lookup_insert_ne; [done|]. intros <-. congruence.
Qed.

Lemma markers_stay_witness :
  allButtons before_win !! 0 = Some 1%Z
  ∧ allButtons (fst (run (Click <$> [0; 4; 0; 24]%Z) before_win)) !! 0 = Some 1%Z.
Proof.
  split; [reflexivity|].
  apply (markers_stay [0; 4; 0; 24]%Z before_win 0 1%Z eq_refl). discriminate.
Defined.

(** X5. On a grid with no empty cell every placement is turned away: any
    sequence of [placeMarker] calls leaves the state as it is and raises no
    effect. A game that fills the grid without a winner therefore keeps the
    text "No one has won yet." until restart; no draw is announced. *)
Theorem full_grid_is_stuck (st : AppState) (ids : list Z) :
  EMPTY_CELL_VALUE ∉ allButtons st →
  run (Click <$> ids) st = (st, []).
Proof.
  intros Full. apply run_rejected. intros id _ A.
  apply accepted_cell in A as (_ & Hc & _).
  apply Full. apply list_elem_of_lookup. by exists (Z.to_nat id).
Qed.

Lemma full_grid_is_stuck_witness :
  drawn = fst (run draw_game initial)
  ∧ (EMPTY_CELL_VALUE ∉ allButtons drawn)
  ∧ winner drawn = "No one has won yet."
  ∧ run (Click <$> [0; 12; 24; 25]%Z) drawn = (drawn, []).
Proof.
  assert (EMPTY_CELL_VALUE ∉ allButtons drawn) as Full.
  { intros H. vm_compute in H.
    repeat (apply elem_of_cons in H as [H | H]; [discriminate H|]).
    by apply elem_of_nil in H. }
  split; [reflexivity|]. split; [exact Full|]. split; [reflexivity|].
  exact (full_grid_is_stuck drawn [0; 12; 24; 25]%Z Full).
Defined.




(** X7. Nothing survives a restart: the state reached by any commands, then
    restart, then further commands, is the state the further commands reach
    from a fresh game, whatever the state at the start. *)
Theorem restart_erases_history (cs cs' : list command) (st : AppState) :
  fst (run (cs ++ Restart :: cs') st) = fst (run cs' initial)
  ∧ snd (run (cs ++ Restart :: cs') st)
    = snd (run cs st) ++ PlayRestart :: snd (run cs' initial).
Proof.
  rewrite run_app, run_cons. unfold step. rewrite handle_Restart. done.
Qed.

(** ** The view *)

Lemma read_at_inside (buttons : list Z) (i : Z) :
  (0 ≤ i < Z.of_nat (length buttons))%Z →
  ∃ c, buttons !! Z.to_nat i = Some c ∧ read_at buttons i = Num c.
Proof.
  intros Hi. destruct (lookup_lt_is_Some_2 buttons (Z.to_nat i)) as [c Hc]; [lia|].
  exists c. split; [done|]. apply read_at_Num. split; [lia|]. split; [lia | done].
Qed.

Lemma getButtonImage_None (buttons : list Z) (i : Z) :
  getButtonImage buttons i = None ↔ read_at buttons i = Num EMPTY_CELL_VALUE.
Proof.
  unfold getButtonImage. rewrite <- strict_eq_true.
  destruct (strict_eq (read_at buttons i) (Num EMPTY_CELL_VALUE)); split; done.
Qed.

(** X8. The marker of a button shows the cell and nothing else: it is absent
    exactly when the cell is empty, and on a well-formed grid two buttons show
    the same marker exactly when their cells hold the same content, so the four
    players are told apart. An index outside the grid gets a bare "marker"
    with no shape rather than no marker. *)
Theorem button_image_faithful (buttons : list Z) (i j : Z) :
  well_formed buttons →
  (0 ≤ i < 25)%Z → (0 ≤ j < 25)%Z →
  (getButtonImage buttons i = None ↔ read_at buttons i = Num EMPTY_CELL_VALUE)
  ∧ (getButtonImage buttons i = getButtonImage buttons j
     ↔ read_at buttons i = read_at buttons j)
  ∧ (∀ k, (k < 0 ∨ 25 ≤ k)%Z → getButtonImage buttons k = Some (Div "marker")).
Proof.
  intros [L C] Hi Hj. split; [apply getButtonImage_None|]. split.
  - destruct (read_at_inside buttons i) as (ci & Hci & Ri); [rewrite L; done|].
    destruct (read_at_inside buttons j) as (cj & Hcj & Rj); [rewrite L; done|].
    rewrite Forall_forall in C.
    assert (cell_ok ci) as Oi by (apply C, list_elem_of_lookup; eauto).
    assert (cell_ok cj) as Oj by (apply C, list_elem_of_lookup; eauto).
    unfold getButtonImage. rewrite Ri, Rj.
    unfold cell_ok, is_player, EMPTY_CELL_VALUE in Oi, Oj.
    assert (ci = 9 ∨ ci = 1 ∨ ci = 2 ∨ ci = 3 ∨ ci = 4)%Z
      as [-> | [-> | [-> | [-> | ->]]]] by lia;
    assert (cj = 9 ∨ cj = 1 ∨ cj = 2 ∨ cj = 3 ∨ cj = 4)%Z
      as [-> | [-> | [-> | [-> | ->]]]] by lia;
    vm_compute; split; intros H; first [reflexivity | discriminate H].
  - intros k Hk. unfold getButtonImage.
    rewrite read_at_outside; [done|].
    rewrite L. unfold PLAYGROUND_SIZE, GRID_SIZE. simpl. lia.
Qed.

Lemma button_image_faithful_witness :
  well_formed two_rows
  ∧ getButtonImage two_rows 5 = getButtonImage two_rows 9
  ∧ getButtonImage two_rows 5 ≠ getButtonImage two_rows 10
  ∧ getButtonImage two_rows 0 = None.
Proof.
  assert (well_formed two_rows) as WF.
  { split; [reflexivity|].
    repeat (apply Forall_cons; split;
      [first [by left | right; unfold is_player; lia]|]).
    apply Forall_nil_2. }
  split; [exact WF|].
  split; [|split].
  - apply (button_image_faithful two_rows 5 9 WF); [lia | lia | reflexivity].
  - intros E. apply (button_image_faithful two_rows 5 10 WF) in E; [|lia|lia].
    discriminate E.
  - apply (button_image_faithful two_rows 0 0 WF); [lia | lia | reflexivity].
Defined.



(** ** The scan on arbitrary arrays *)

Lemma examined_cells (buttons : list Z) (batch : list value) (p : Z) :
  batch ∈ lines_examined buttons → Num p ∈ batch → p ∈ buttons.
Proof.
  assert (∀ i, read buttons i = Num p → p ∈ buttons) as Read.
  { intros i R. apply read_lookup in R. apply list_elem_of_lookup. eauto. }
  assert (∀ l : list nat, Num p ∈ read buttons <$> l → p ∈ buttons) as Reads.
  { intros l (i & E & _)%list_elem_of_fmap. by apply (Read i). }
  unfold lines_examined. rewrite !elem_of_app.
  intros [Hb | [Hb | Hb]] Hp.
  - apply list_elem_of_fmap in Hb as (i & -> & _). unfold slice in Hp.
    apply list_elem_of_fmap in Hp as (c & [= <-] & Hc).
    by apply subseteq_take, subseteq_drop in Hc.
  - apply list_elem_of_fmap in Hb as (i & -> & _). unfold scanColumns in Hp.
    apply list_elem_of_fmap in Hp as (row & E & _). by apply (Read _ (eq_sym E)).
  - apply elem_of_cons in Hb as [-> | Hb]; [by apply (Reads _ Hp)|].
    apply elem_of_cons in Hb as [-> | Hb]; [by apply (Reads _ Hp)|].
    by apply elem_of_nil in Hb.
Qed.

(** X10. On any array at all, of any length and content, the scan answers
    [null] or a number that occurs in the array and is neither 0 nor the empty
    sentinel: it never answers [undefined], and never invents a player. A
    batch check alone answers [undefined] exactly on a batch with no cell or
    only missing cells, which the scan then discards. *)
Theorem scan_answer_any_array (buttons : list Z) :
  (displayWinner buttons = Null
   ∨ ∃ p, displayWinner buttons = Num p
          ∧ p ≠ 0%Z ∧ p ≠ EMPTY_CELL_VALUE ∧ p ∈ buttons)
  ∧ displayWinner [] = Null
  ∧ ∀ batch, checkWinnerBatch batch = Undefined
             ↔ Forall (λ cell, cell = Undefined) batch.
Proof.
  split; [|split; [reflexivity|]].
  - rewrite displayWinner_scan.
    destruct (first_truthy _) as [w|] eqn:F; [right | by left].
    apply first_truthy_Some in F as (k & Hk & T & _).
    apply list_lookup_fmap_Some_1 in Hk as (batch & -> & Hbatch).
    apply list_elem_of_lookup_2 in Hbatch.
    apply checkWinnerBatch_truthy in T as (p & E & Hp & Hp9 & A).
    exists p. simpl. split; [done|]. split; [done|]. split; [done|].
    apply (examined_cells buttons batch p Hbatch).
    apply checkWinnerBatch_Num in E as (NE & _ & _).
    destruct batch as [|c batch]; [done|].
    apply Forall_inv in A. simpl in A. subst c. left.
  - intros batch. split.
    + intros E. destruct (checkWinnerBatch_cases batch) as [N | (F & _ & A)];
        [congruence|]. by rewrite <- F, E in A.
    + intros A. unfold checkWinnerBatch.
      assert (first_of batch = Undefined) as ->.
      { destruct batch as [|c batch]; [done|]. by apply Forall_inv in A. }
      simpl. apply forallb_strict_eq in A. by rewrite A.
Qed.

(** X11. The winner text tells the status: the text of a player is never
    the default text that the guard of [placeMarker] compares with, the texts
    of two players are equal only if the players are, and the four texts are
    "Player 1 wins!" to "Player 4 wins!". *)
Theorem winner_text_names_player (p q : Z) :
  is_player p → is_player q →
  getWinnerString (Num p) ≠ DEFAULT_WINNER_TEXT
  ∧ (getWinnerString (Num p) = getWinnerString (Num q) ↔ p = q)
  ∧ getWinnerString (Num p) ∈ ["Player 1 wins!"; "Player 2 wins!";
                               "Player 3 wins!"; "Player 4 wins!"].
Proof.
  intros Hp Hq. split; [apply getWinnerString_not_default|]. split.
  - split; [|by intros ->]. unfold is_player in Hp, Hq.
    assert (p = 1 ∨ p = 2 ∨ p = 3 ∨ p = 4)%Z as [-> | [-> | [-> | ->]]] by lia;
    assert (q = 1 ∨ q = 2 ∨ q = 3 ∨ q = 4)%Z as [-> | [-> | [-> | ->]]] by lia;
    intros E; first [reflexivity | vm_compute in E; discriminate E].
  - unfold is_player in Hp.
    assert (p = 1 ∨ p = 2 ∨ p = 3 ∨ p = 4)%Z as [-> | [-> | [-> | ->]]] by lia;
      in_list.
Qed.

Lemma winner_text_names_player_witness :
  is_player 1 ∧ is_player 2
  ∧ getWinnerString (Num 1) ≠ DEFAULT_WINNER_TEXT
  ∧ getWinnerString (Num 1) ≠ getWinnerString (Num 2).
Proof.
  assert (is_player 1) as P1 by (unfold is_player; lia).
  assert (is_player 2) as P2 by (unfold is_player; lia).
  destruct (winner_text_names_player 1 2 P1 P2) as (ND & Inj & _).
  split; [exact P1|]. split; [exact P2|]. split; [exact ND|].
  intros E. apply Inj in E. discriminate E.
Defined.

(** ** How early a game can be won *)

Lemma spec_lines_NoDup (line : list nat) : line ∈ spec_lines → NoDup line.
Proof.
  rewrite spec_lines_explicit. intros H.
  repeat (apply elem_of_cons in H as [-> | H];
    [apply (bool_decide_unpack _); by vm_compute|]).
  by apply elem_of_nil in H.
Qed.

(** Distinct cells that hold [p] are counted among the cells holding [p]. *)
Lemma count_cells_line (p : Z) (line : list nat) :
  NoDup line →
  ∀ buttons, (∀ i, i ∈ line → buttons !! i = Some p) →
    length line ≤ count_cells p buttons.
Proof.
  induction 1 as [|i line Hi ND IH]; intros buttons A; [simpl; lia|].
  destruct (decide (p = p + 1)%Z) as [E | NE]; [lia|].
  pose proof (A i (list_elem_of_here _ _)) as Ai.
  pose proof (count_cells_placed p p (p + 1)%Z buttons i Ai) as M.
  destruct (decide (p = p)); [|done].
  destruct (decide ((p + 1)%Z = p)); [lia|].
  assert (length line ≤ count_cells p (<[i := (p + 1)%Z]> buttons)) as B.
  { apply IH. intros j Hj. rewrite list_lookup_insert_ne; [|by intros ->].
    apply A. by right. }
  simpl. lia.
Qed.

(** X12. In a reachable state where a winner is announced, the winner [p]
    owns at least five markers and the grid holds at least [16 + p] markers:
    no game is won before the seventeenth marker is placed. *)
Theorem no_early_win (cs : list command) :
  let st := fst (run cs initial) in
  ¬ in_progress st →
  ∃ p, is_player p
       ∧ winner st = getWinnerString (Num p)
       ∧ 5 ≤ count_cells p (allButtons st)
       ∧ (16 + p ≤ Z.of_nat (markers (allButtons st)))%Z
       ∧ 17 ≤ markers (allButtons st).
Proof.
  intros st Won.
  destruct (run_status cs initial initial_ok initial_status)
    as [[P _] | (p & Hp & W & Scan & _)]; [done|]. fold st in W, Scan.
  destruct (run_ok cs initial initial_ok) as [[L _] _]. fold st in L.
  destruct (truthy_scan_line (allButtons st) L) as (line & q & Hline & LW & _ & E).
  { rewrite Scan. by apply is_player_truthy. }
  rewrite Scan in E. injection E as <-.
  assert (5 ≤ count_cells p (allButtons st)) as Five.
  { destruct (spec_lines_inside line Hline) as [Len _]. destruct LW as [_ A].
    pose proof (count_cells_line p line (spec_lines_NoDup line Hline) _ A) as B.
    rewrite Len in B. exact B. }
  destruct (run_tally cs initial initial_tally) as [_ Own]. fold st in Own.
  specialize (Own p Hp).
  exists p. split; [done|]. split; [done|]. split; [done|].
  unfold is_player in Hp.
  assert (16 + p ≤ Z.of_nat (markers (allButtons st)))%Z as B.
  { apply Nat2Z.inj_le in Five. rewrite Own in Five. simpl in Five.
    Z.div_mod_to_equations. lia. }
  split; [done | lia].
Qed.

Lemma no_early_win_witness :
  ¬ in_progress (fst (run (opening ++ [Click 4]) initial))
  ∧ ∃ p, is_player p
         ∧ winner (fst (run (opening ++ [Click 4]) initial)) = getWinnerString (Num p)
         ∧ 17 ≤ markers (allButtons (fst (run (opening ++ [Click 4]) initial))).
Proof.
  assert (¬ in_progress (fst (run (opening ++ [Click 4]) initial))) as W.
  { intros P. vm_compute in P. discriminate P. }
  split; [exact W|].
  destruct (no_early_win (opening ++ [Click 4]) W) as (p & Hp & E & _ & _ & B).
  exists p. split; [exact Hp|]. split; [exact E | exact B].
Defined.


(** ** The sound manager *)

Lemma getContext_calls_held (ctx : nat) (constructs : list (option nat)) :
  getContext_calls constructs (mkSoundManager (Some ctx))
  = (replicate (length constructs) (Some ctx), mkSoundManager (Some ctx), []).
Proof.
  induction constructs as [|c constructs IH]; [done|].
  simpl. by rewrite IH.
Qed.

(** X13. The audio context is created lazily and once. While the constructor
    throws, each [getContext] logs one error, answers [null] and leaves the
    manager empty, so that the next call tries again; the first context that
    is constructed is kept, and from then on every call answers that same
    context without constructing or logging anything, whatever the
    constructor would do. *)
Theorem audio_context_created_once (k : nat) (ctx : nat) (rest : list (option nat)) :
  let failed := ConsoleError "Web Audio API is not supported in this browser" in
  getContext_calls (replicate k None) soundManager
  = (replicate k None, soundManager, replicate k failed)
  ∧ getContext_calls (replicate k None ++ Some ctx :: rest) soundManager
    = (replicate k None ++ replicate (S (length rest)) (Some ctx),
       mkSoundManager (Some ctx),
       replicate k failed ++ [NewAudioContext ctx])
  ∧ getContext_calls rest (mkSoundManager (Some ctx))
    = (replicate (length rest) (Some ctx), mkSoundManager (Some ctx), []).
Proof.
  intros failed. split; [|split; [|apply getContext_calls_held]].
  - induction k as [|k IH]; [done|]. simpl. by rewrite IH.
  - induction k as [|k IH].
    + simpl. by rewrite getContext_calls_held.
    + simpl. by rewrite IH.
Qed.

(** ** The fireworks *)

Section FireworksFacts.
Variable cv : canvas.

Lemma move_uniform (a : float) (ps : list particle) :
  Forall (λ p, alpha p = a) ps →
  Forall (λ p, alpha p = (a - 0.02)%float) (move <$> ps).
Proof.
  intros U. apply Forall_fmap. eapply Forall_impl; [exact U|].
  intros p E. simpl. by rewrite E.
Qed.

Lemma existsb_uniform (a : float) (ps : list particle) :
  ps ≠ [] → Forall (λ p, alpha p = a) ps →
  existsb (λ p, (0 <? alpha p)%float) ps = (0 <? a)%float.
Proof.
  intros NE U. induction U as [|p ps E U IH]; [done|].
  simpl. rewrite E. destruct (0 <? a)%float eqn:Pos; [done|].
  destruct ps as [|q ps]; [done|]. simpl. apply IH. discriminate.
Qed.

Lemma animate_S (fuel : nat) (a : float) (ps : list particle) :
  ps ≠ [] → Forall (λ p, alpha p = a) ps →
  animate cv (S fuel) ps
  = ClearRect 0 0 (width cv) (height cv)
    :: concat (draw <$> (move <$> ps))
    ++ (if (0 <? a - 0.02)%float
        then RequestAnimationFrame :: animate cv fuel (move <$> ps)
        else [ClearRect 0 0 (width cv) (height cv)]).
Proof.
  intros NE U. simpl.
  rewrite (existsb_uniform (a - 0.02)%float); [done | | by apply move_uniform].
  by destruct ps.
Qed.

(** Once the alpha has faded, more fuel adds nothing. *)
Lemma animate_fuel (n : nat) :
  ∀ a ps fuel, ps ≠ [] → Forall (λ p, alpha p = a) ps →
    fades_within n a = true → n ≤ fuel →
    animate cv fuel ps = animate cv n ps.
Proof.
  induction n as [|n IH]; intros a ps fuel NE U F Hf; [done|].
  destruct fuel as [|fuel]; [lia|].
  rewrite !(animate_S _ a) by done. simpl in F.
  destruct (0 <? a - 0.02)%float; [|done].
  do 3 f_equal. apply (IH (a - 0.02)%float); [by destruct ps | | done | lia].
  by apply move_uniform.
Qed.

Lemma count_calls_cons (P : canvas_call → bool) (c : canvas_call) (l : list canvas_call) :
  count_calls P (c :: l) = (if P c then 1 else 0) + count_calls P l.
Proof.
  unfold count_calls. rewrite filter_cons.
  destruct (P c); by case_decide.
Qed.

Lemma count_calls_app (P : canvas_call → bool) (l l' : list canvas_call) :
  count_calls P (l ++ l') = count_calls P l + count_calls P l'.
Proof. unfold count_calls. by rewrite filter_app, length_app. Qed.

Lemma count_calls_draws (ps : list particle) :
  count_calls is_fill (concat (draw <$> ps)) = length ps
  ∧ count_calls is_clear (concat (draw <$> ps)) = 0
  ∧ count_calls is_frame_request (concat (draw <$> ps)) = 0.
Proof.
  induction ps as [|p ps (IH1 & IH2 & IH3)]; [done|].
  rewrite fmap_cons, concat_cons, !count_calls_app, IH1, IH2, IH3.
  done.
Qed.

Lemma alphas_set_app (l l' : list canvas_call) :
  alphas_set (l ++ l') = alphas_set l ++ alphas_set l'.
Proof. unfold alphas_set. apply omap_app. Qed.

Lemma alphas_set_draws (ps : list particle) :
  alphas_set (concat (draw <$> ps)) = (λ p, Math_max (alpha p) 0%float) <$> ps.
Proof.
  induction ps as [|p ps IH]; [done|].
  rewrite !fmap_cons, concat_cons, alphas_set_app, IH. done.
Qed.

Lemma alphas_uniform (a : float) (ps : list particle) :
  Forall (λ p, alpha p = a) ps →
  (λ p, Math_max (alpha p) 0%float) <$> ps = replicate (length ps) (Math_max a 0%float).
Proof.
  induction 1 as [|p ps E U IH]; [done|]. rewrite fmap_cons, IH, E. done.
Qed.

(** The record of an animation whose particles share their alpha, read off
    the alphas of its frames. *)
Lemma animate_summary (fuel : nat) :
  ∀ a ps, ps ≠ [] → Forall (λ p, alpha p = a) ps →
    let calls := animate cv fuel ps in
    let frames := alpha_frames fuel a in
    let ended := if fades_within fuel a then 1 else 0 in
    count_calls is_frame_request calls + ended = length frames
    ∧ count_calls is_clear calls = length frames + ended
    ∧ count_calls is_fill calls = length frames * length ps
    ∧ alphas_set calls
      = concat ((λ a', replicate (length ps) (Math_max a' 0%float)) <$> frames)
    ∧ (fades_within fuel a = true →
       last calls = Some (ClearRect 0 0 (width cv) (height cv))).
Proof.
  induction fuel as [|fuel IH]; intros a ps NE U; [done|].
  pose proof (move_uniform a ps U) as U'.
  assert (move <$> ps ≠ []) as NE' by by destruct ps.
  destruct (count_calls_draws (move <$> ps)) as (D1 & D2 & D3).
  pose proof (alphas_set_draws (move <$> ps)) as D4.
  rewrite (alphas_uniform _ _ U'), length_fmap in D4. rewrite length_fmap in D1.
  cbn zeta. rewrite (animate_S _ a) by done.
  rewrite !count_calls_cons, !count_calls_app, D1, D2, D3.
  change (alphas_set (ClearRect 0 0 (width cv) (height cv) :: ?l))
    with (alphas_set l).
  rewrite alphas_set_app, D4. simpl alpha_frames. simpl fades_within.
  destruct (0 <? a - 0.02)%float.
  - destruct (IH (a - 0.02)%float (move <$> ps) NE' U') as (I1 & I2 & I3 & I4 & I5).
    rewrite length_fmap in I3, I4.
    rewrite !count_calls_cons. change (alphas_set (RequestAnimationFrame :: ?l))
      with (alphas_set l).
    rewrite I2, I3, I4. simpl. split; [by rewrite I1|]. split; [done|].
    split; [done|]. split; [done|]. intros F. specialize (I5 F).
    rewrite last_cons, last_app. simpl. rewrite last_cons, I5. done.
  - simpl. split; [done|]. split; [done|]. split; [by rewrite Nat.add_0_r|].
    split; [by rewrite app_nil_r|]. intros _.
    rewrite last_cons, last_app. done.
Qed.
End FireworksFacts.

Lemma particles_uniform (cv : canvas) (random : nat → float) :
  length (particles cv random) = 100
  ∧ Forall (λ p, alpha p = 1%float) (particles cv random).
Proof.
  unfold particles. split; [by rewrite length_fmap|].
  apply Forall_fmap, Forall_forall. done.
Qed.

(** X14. The fireworks end. On a mounted canvas with a 2d context, whatever
    its size and whatever [Math.random] returns, the animation draws exactly
    50 frames of its 100 particles and then stops: 49 times it asks for a
    further frame, and the fiftieth frame instead clears the canvas, which is
    the last call made; following the browser for more than 50 frames adds
    nothing. The opacity it sets is never negative and never above 0.98.
    Without a canvas or without a 2d context nothing is drawn. *)
Theorem fireworks_end_after_50_frames (cv : canvas) (random : nat → float)
    (fuel : nat) :
  context2d cv = true →
  50 ≤ fuel →
  let calls := launchFireworks (Some cv) random fuel in
  calls = launchFireworks (Some cv) random 50
  ∧ count_calls is_frame_request calls = 49
  ∧ count_calls is_clear calls = 51
  ∧ count_calls is_fill calls = 5000
  ∧ last calls = Some (ClearRect 0 0 (width cv) (height cv))
  ∧ Forall (λ a, (0 <=? a)%float = true ∧ (a <=? 0.98)%float = true)
      (alphas_set calls)
  ∧ launchFireworks None random fuel = []
  ∧ launchFireworks (Some (mkCanvas (width cv) (height cv) false)) random fuel = [].
Proof.
  intros Ctx Hfuel calls.
  destruct (particles_uniform cv random) as [Len U].
  assert (particles cv random ≠ []) as NE by (intros E; by rewrite E in Len).
  assert (fades_within 50 1%float = true) as Fade by (vm_compute; reflexivity).
  assert (calls = launchFireworks (Some cv) random 50) as E.
  { subst calls. unfold launchFireworks. rewrite Ctx.
    exact (animate_fuel cv 50 1%float (particles cv random) fuel NE U Fade Hfuel). }
  split; [exact E|]. rewrite E. clear E calls.
  assert (launchFireworks (Some cv) random 50 = animate cv 50 (particles cv random))
    as -> by (unfold launchFireworks; by rewrite Ctx).
  destruct (animate_summary cv 50 1%float (particles cv random) NE U)
    as (S1 & S2 & S3 & S4 & S5).
  rewrite Fade in S1, S2.
  assert (length (alpha_frames 50 1%float) = 50) as Frames
    by (vm_compute; reflexivity).
  rewrite Frames in S1, S2, S3. rewrite Len in S3.
  split; [apply (Nat.add_cancel_r _ _ 1); exact S1|]. split; [exact S2|].
  split; [exact S3|]. split; [exact (S5 eq_refl)|].
  split; [|split; reflexivity].
  rewrite S4, Len. apply Forall_concat, Forall_fmap.
  assert (Forall (λ a', (0 <=? Math_max a' 0)%float = true
                        ∧ (Math_max a' 0 <=? 0.98)%float = true)
            (alpha_frames 50 1%float)) as Ok.
  { apply (bool_decide_unpack _). vm_compute. exact I. }
  eapply Forall_impl; [exact Ok|]. intros a' Ha. by apply Forall_replicate.
Qed.

Lemma fireworks_end_after_50_frames_witness :
  context2d (mkCanvas 800 600 true) = true
  ∧ 50 ≤ 60
  ∧ count_calls is_frame_request
      (launchFireworks (Some (mkCanvas 800 600 true)) (λ _, 0.25%float) 60) = 49.
Proof.
  assert (50 ≤ 60) as Hfuel by lia.
  split; [reflexivity|]. split; [exact Hfuel|].
  exact (proj1 (proj2 (fireworks_end_after_50_frames
                         (mkCanvas 800 600 true) (λ _, 0.25%float) 60 eq_refl Hfuel))).
Defined.
